(** * PromptCAD: the TechDraw schematic engine

    A shallow embedding of [src/services/techDrawEngine.ts] (with the data
    types of [src/types.ts]) and the properties of its operations [add],
    [connect], [reset] and [getExportSVG].

    Modelling choices, all taken from the source:
    - a JavaScript [number] is an IEEE-754 binary64 value: Rocq's primitive
      [float], with its own [+ - * /], [abs] and comparisons;
    - [Math.cos] and [Math.sin] are host functions, not code of the
      repository: [add] is parametrised by them (Section [Engine]), and
      statements about one run instantiate them with the host of Module
      [Host];
    - a string built by a template literal is kept as its list of
      fragments, so that the decimal rendering of a number stays symbolic;
    - the DOM is a tree of nodes; the engine holds its root group and the
      host document around it (a one-hole context);
    - a call completes normally or throws; reading a property of
      [undefined] throws;
    - [Map<string, ComponentInstance>] is a [gmap]; the [pins] record is a
      plain JavaScript object, read through the prototype chain. *)

From Stdlib Require Import ZArith Lia Ascii String.
From Stdlib Require Import Floats.PrimFloat Floats.SpecFloat Floats.FloatOps Floats.FloatAxioms.
From Equations Require Import Equations.
From Equations.Prop Require Import Logic.
From stdpp Require Import base option list strings gmap.

(** ** JavaScript values *)

Module JS.

(** Completion of a call: normal return or a thrown exception. *)
Inductive Completion (A : Type) : Type :=
| Normal (a : A)
| Throw (e : string).
Arguments Normal {A} a.
Arguments Throw {A} e.

#[export] Instance Completion_ret : MRet Completion := fun A a => Normal a.
#[export] Instance Completion_bind : MBind Completion := fun A B k c =>
  match c with
  | Normal a => k a
  | Throw e => Throw e
  end.

(** A value of static type [number] as it exists at run time. *)
Inductive Value : Type :=
| Undefined
| Num (n : float).

Definition ToNumber (v : Value) : float :=
  match v with
  | Undefined => nan
  | Num n => n
  end.

(** Fragments of a string: a literal chunk, or the decimal rendering
    [Number::toString] of a number. *)
Inductive Frag : Type :=
| Lit (s : string)
| Dec (n : float).

Definition JSString : Type := list Frag.

Definition ToString (v : Value) : JSString :=
  match v with
  | Undefined => [Lit "undefined"]
  | Num n => [Dec n]
  end.

(** [a + b] and [a - b] on values that are not strings. *)
Definition plus (a b : Value) : float := (ToNumber a + ToNumber b)%float.
Definition minus (a b : Value) : float := (ToNumber a - ToNumber b)%float.

Definition Math_abs (a : float) : float := abs a.

(** [a > b] on numbers: false as soon as one side is NaN. *)
Definition gt (a b : float) : bool := (b <? a)%float.

Definition Math_PI : float := 0x1.921fb54442d18p+1%float.

(** Own property names of [Object.prototype] (ECMAScript 20.1.3 and
    B.2.2): every object created by [{}] inherits them, and each of them
    holds a function or an object, which is truthy and has no [x], [y]. *)
Definition Object_prototype_keys : list string :=
  [ "constructor"; "hasOwnProperty"; "isPrototypeOf"; "propertyIsEnumerable";
    "toLocaleString"; "toString"; "valueOf"; "__proto__";
    "__defineGetter__"; "__defineSetter__"; "__lookupGetter__";
    "__lookupSetter__" ].

(** Truthiness of a string: only the empty string is falsy. *)
Definition truthy_string (s : string) : bool := negb (String.eqb s "").

End JS.

(** ** A host for [Math.cos] and [Math.sin]

    ECMAScript fixes both functions at NaN, at the zeros and at the
    infinities, and leaves the other values implementation-approximated.
    This host evaluates the cosine or sine of its argument in fixed point
    on [prec] fractional bits (the argument [m * 2^e] is reduced by the
    nearest multiple of pi/2 and the Taylor series is summed on the rest)
    and returns the binary64 value nearest to the result. *)

Module Host.
Local Open Scope Z_scope.

Definition prec : Z := 1400.

(** Sum of the alternating series whose current term is [t / k] and whose
    next numerator is [t / n2]. *)
Fixpoint atan_series (fuel : nat) (n2 t k : Z) (neg : bool) (acc : Z) : Z :=
  match fuel with
  | O => acc
  | S fuel =>
      if t =? 0 then acc
      else atan_series fuel n2 (t / n2) (k + 2) (negb neg)
             (if neg then acc - t / k else acc + t / k)
  end.

(** [2^p * atan (1/n)] *)
Definition atan_inv (p n : Z) : Z :=
  atan_series 2000 (n * n) (2 ^ p / n) 1 false 0.

(** [pi * 2^prec], by Machin's formula on 64 guard bits. *)
Definition pi_fix : Z :=
  Eval vm_compute in
    (16 * atan_inv (prec + 64) 5 - 4 * atan_inv (prec + 64) 239) / 2 ^ 64.

Definition mulf (a b : Z) : Z := a * b / 2 ^ prec.

(** Sum of the series whose current term is [t] and whose next term is
    [- t * r2 / (k * (k + 1))]. *)
Fixpoint taylor (fuel : nat) (r2 t k acc : Z) : Z :=
  match fuel with
  | O => acc
  | S fuel =>
      if t =? 0 then acc
      else taylor fuel r2 (- (mulf t r2) / (k * (k + 1))) (k + 2) (acc + t)
  end.

Definition sin_fix (r : Z) : Z := taylor 1000 (mulf r r) r 2 0.
Definition cos_fix (r : Z) : Z := taylor 1000 (mulf r r) (2 ^ prec) 1 0.

(** Round [v * 2^-prec] to the nearest binary64 value. *)
Definition round (v : Z) : float :=
  SF2Prim (binary_normalize 53 1024 v (- prec) false).

(** Quadrant and reduced argument of [m * 2^e]. *)
Definition reduce (m : positive) (e : Z) : Z * Z :=
  let X := Z.pos m * 2 ^ (e + prec) in
  let k := (2 * X + pi_fix / 2) / pi_fix in
  (k mod 4, X - k * pi_fix / 2).

Definition Math_cos (x : float) : float :=
  match Prim2SF x with
  | S754_nan | S754_infinity _ => nan
  | S754_zero _ => 1%float
  | S754_finite _ m e =>
      let '(q, r) := reduce m e in
      round (if q =? 0 then cos_fix r
             else if q =? 1 then - sin_fix r
             else if q =? 2 then - cos_fix r
             else sin_fix r)
  end.

Definition Math_sin (x : float) : float :=
  match Prim2SF x with
  | S754_nan | S754_infinity _ => nan
  | S754_zero _ => x
  | S754_finite s m e =>
      let '(q, r) := reduce m e in
      let v := if q =? 0 then sin_fix r
               else if q =? 1 then cos_fix r
               else if q =? 2 then - sin_fix r
               else - cos_fix r in
      round (if s then - v else v)
  end.

End Host.

(** ** The DOM *)

Module Dom.
Import JS.

#[warnings="-register-all"]
Inductive Node : Type :=
| ElementNode (tag : string) (attrs : list (string * JSString)) (children : list Node)
| TextNode (data : JSString).

(** An element, as the engine holds it: [SVGElement], [SVGGElement]. *)
Record Element : Type := {
  tagName : string;
  attributes : list (string * JSString);
  childNodes : list Node
}.

Definition node (e : Element) : Node :=
  ElementNode (tagName e) (attributes e) (childNodes e).
Coercion node : Element >-> Node.

Definition nodeName (n : Node) : string :=
  match n with
  | ElementNode t _ _ => t
  | TextNode _ => "#text"
  end.

(** [document.createElementNS(ns, tag)]; all elements of the engine are in
    the one namespace [ns], which is left out. *)
Definition createElementNS (tag : string) : Element :=
  {| tagName := tag; attributes := []; childNodes := [] |}.

Definition firstChild (e : Element) : option Node := head (childNodes e).

Definition setChildren (e : Element) (c : list Node) : Element :=
  {| tagName := tagName e; attributes := attributes e; childNodes := c |}.

(** [parent.appendChild(child)], for a [child] that is not yet in a tree. *)
Definition appendChild (parent : Element) (child : Node) : Element :=
  setChildren parent (childNodes parent ++ [child]).

(** [parent.insertBefore(child, ref)], [ref] being the child of [parent]
    at index [i]. *)
Definition insertBefore (parent : Element) (child : Node) (i : nat) : Element :=
  setChildren parent (take i (childNodes parent) ++ child :: drop i (childNodes parent)).

(** [parent.removeChild(ref)], [ref] being the child at index [i]. *)
Definition removeChild (parent : Element) (i : nat) : Element :=
  setChildren parent (delete i (childNodes parent)).

Fixpoint set_assoc (k : string) (v : JSString) (l : list (string * JSString))
  : list (string * JSString) :=
  match l with
  | [] => [(k, v)]
  | (k', v') :: r =>
      if String.eqb k' k then (k, v) :: r else (k', v') :: set_assoc k v r
  end.

Definition setAttribute (e : Element) (k : string) (v : JSString) : Element :=
  {| tagName := tagName e; attributes := set_assoc k v (attributes e);
     childNodes := childNodes e |}.

(** [el.textContent = s]: the children become one text node. *)
Definition set_textContent (e : Element) (s : JSString) : Element :=
  setChildren e [TextNode s].

(** The host document around the engine's root group: the path from the
    root group up to the [svg] element, with the siblings on each level. *)
Inductive Context : Type :=
| Here
| Inside (tag : string) (attrs : list (string * JSString))
         (before : list Node) (inner : Context) (after : list Node).

Fixpoint plug (c : Context) (n : Node) : Node :=
  match c with
  | Here => n
  | Inside t a b inner af => ElementNode t a (b ++ plug inner n :: af)
  end.

End Dom.

Import JS Dom.

(** ** Data types of [src/types.ts] *)

Record ComponentConfig : Type := {
  cfg_x : float;
  cfg_y : float;
  cfg_rotate : option float;
  cfg_label : option string
}.

(** The tags of the union type [ComponentType]. *)
Definition ComponentType : list string :=
  [ "resistor"; "capacitor"; "inductor"; "diode"; "led";
    "source_v"; "source_i"; "gnd";
    "opamp";
    "transistor_npn"; "transistor_pnp";
    "mosfet_n"; "mosfet_p";
    "gate_and"; "gate_or"; "gate_not"; "gate_nand"; "gate_nor"; "gate_xor";
    "arduino_uno"; "stepper_motor"; "driver_stepper"; "antenna"; "ic_555" ].

(** Field names carry a prefix, since Rocq's projections are global:
    [pin_x] is [x] of [PinPosition], [inst_id] is [id] of
    [ComponentInstance], and so on. *)
Record PinPosition : Type := { pin_x : float; pin_y : float }.

Record ComponentInstance : Type := {
  inst_id : string;
  inst_type : string;
  inst_x : float;
  inst_y : float;
  inst_rotation : float;
  inst_pins : gmap string PinPosition
}.

(** What [pins[k]] evaluates to when it is not [undefined]: an own
    property, or a member inherited from [Object.prototype]. *)
Inductive Member : Type :=
| Own (p : PinPosition)
| Inherited (k : string).

Definition Get (o : gmap string PinPosition) (k : string) : option Member :=
  match o !! k with
  | Some p => Some (Own p)
  | None =>
      if bool_decide (k ∈ Object_prototype_keys) then Some (Inherited k) else None
  end.

(** [p.x] and [p.y]: a TypeError on [undefined], [undefined] on a member
    that has no such property. *)
Definition prop (f : PinPosition -> float) (p : option Member) : Completion Value :=
  match p with
  | None => Throw "TypeError"
  | Some (Own q) => Normal (Num (f q))
  | Some (Inherited _) => Normal Undefined
  end.

(** [c.pins]: a TypeError when [c] is [undefined]. *)
Definition prop_pins (c : option ComponentInstance)
  : Completion (gmap string PinPosition) :=
  match c with
  | None => Throw "TypeError"
  | Some c => Normal (inst_pins c)
  end.

(** Arguments of [createEl]: [Record<string, string | number>]. *)
Inductive Arg : Type :=
| AStr (s : JSString)
| ANum (v : Value).

Definition str (s : string) : Arg := AStr [Lit s].
Definition num (n : float) : Arg := ANum (Num n).
Definition pin (k : string) (px py : float) : string * (float * float) := (k, (px, py)).
Arguments num n%_float.
Arguments pin k%_string (px py)%_float.

Definition String_ (a : Arg) : JSString :=
  match a with
  | AStr s => s
  | ANum v => ToString v
  end.

(** ** The engine

    The state of a [TechDrawEngine] and what it writes to: [activeLayer] is
    the root group with its children (the field [rootGroup] is the same
    element), [svg] is the rest of the [svg] element, around the root
    group; [components] is the registry; [console] collects the warnings.
    The namespace [ns] is a constant. *)

Record TechDrawEngine : Type := {
  svg : Context;
  activeLayer : Element;
  components : gmap string ComponentInstance;
  console : list JSString
}.

(** [new TechDrawEngine(svgElement, rootGroup)]: [rootGroup] sits inside
    [svgElement], and [activeLayer] is the same element as [rootGroup]. *)
Definition constructor (svgElement : Context) (rootGroup : Element) : TechDrawEngine :=
  {| svg := svgElement; activeLayer := rootGroup; components := ∅; console := [] |}.

Definition console_warn (msg : JSString) (this : TechDrawEngine) : TechDrawEngine :=
  {| svg := svg this; activeLayer := activeLayer this;
     components := components this; console := console this ++ [msg] |}.

(** The loop of [reset]: [while (layer.firstChild) layer.removeChild(layer.firstChild)].
    Every iteration shortens the child list. *)
Equations? remove_children (layer : Element) : Element
  by wf (length (childNodes layer)) lt :=
  remove_children layer with inspect (firstChild layer) := {
    | exist _ (Some _) Hfirst => remove_children (removeChild layer 0);
    | exist _ None _ => layer }.
Proof.
  unfold firstChild in Hfirst.
  destruct (childNodes layer) as [|c rest] eqn:E; [discriminate|].
  simpl. rewrite E. simpl. lia.
Qed.

Definition reset (this : TechDrawEngine) : Completion TechDrawEngine :=
  (* keep the grid/defs, clear the content *)
  let layer := remove_children (activeLayer this) in
  Normal {| svg := svg this; activeLayer := layer; components := ∅;
            console := console this |}.

Definition createEl (tag : string) (attrs : list (string * Arg)) : Element :=
  fold_left (fun el kv => setAttribute el (fst kv) (String_ (snd kv))) attrs
            (createElementNS tag).

(** Symbol definitions: the geometry is appended to [g], the relative pin
    positions are returned. *)
Definition drawSymbol (type : string) (g : Element)
  : Element * list (string * (float * float)) :=
  if String.eqb type "resistor" then
    let g := appendChild g (createEl "path" [("d", str "M -30 0 L -20 0 L -15 -10 L -5 10 L 5 -10 L 15 10 L 20 0 L 30 0"); ("class", str "stroke-slate-800 stroke-[2] fill-none stroke-linecap-round stroke-linejoin-round")]) in
    (g, [pin "left" (-30) 0; pin "right" 30 0])
  else
  if String.eqb type "capacitor" then
    let g := appendChild g (createEl "line" [("x1", num (-5)); ("y1", num (-15)); ("x2", num (-5)); ("y2", num 15); ("class", str "stroke-slate-800 stroke-[3]")]) in
    let g := appendChild g (createEl "line" [("x1", num 5); ("y1", num (-15)); ("x2", num 5); ("y2", num 15); ("class", str "stroke-slate-800 stroke-[3]")]) in
    let g := appendChild g (createEl "line" [("x1", num (-30)); ("y1", num 0); ("x2", num (-5)); ("y2", num 0); ("class", str "stroke-slate-800 stroke-[2]")]) in
    let g := appendChild g (createEl "line" [("x1", num 5); ("y1", num 0); ("x2", num 30); ("y2", num 0); ("class", str "stroke-slate-800 stroke-[2]")]) in
    (g, [pin "left" (-30) 0; pin "right" 30 0])
  else
  if String.eqb type "inductor" then
    let g := appendChild g (createEl "path" [("d", str "M -30 0 L -20 0 Q -15 -10 -10 0 Q -5 -10 0 0 Q 5 -10 10 0 Q 15 -10 20 0 L 30 0"); ("class", str "stroke-slate-800 stroke-[2] fill-none")]) in
    (g, [pin "left" (-30) 0; pin "right" 30 0])
  else
  if String.eqb type "diode" then
    let g := appendChild g (createEl "path" [("d", str "M -10 -10 L -10 10 L 10 0 Z"); ("class", str "fill-slate-800 stroke-none")]) in
    let g := appendChild g (createEl "line" [("x1", num 10); ("y1", num (-10)); ("x2", num 10); ("y2", num 10); ("class", str "stroke-slate-800 stroke-[3]")]) in
    let g := appendChild g (createEl "line" [("x1", num (-30)); ("y1", num 0); ("x2", num (-10)); ("y2", num 0); ("class", str "stroke-slate-800 stroke-[2]")]) in
    let g := appendChild g (createEl "line" [("x1", num 10); ("y1", num 0); ("x2", num 30); ("y2", num 0); ("class", str "stroke-slate-800 stroke-[2]")]) in
    (g, [pin "anode" (-30) 0; pin "cathode" 30 0])
  else
  if String.eqb type "led" then
    let g := appendChild g (createEl "path" [("d", str "M -10 -10 L -10 10 L 10 0 Z"); ("class", str "fill-slate-800 stroke-none")]) in
    let g := appendChild g (createEl "line" [("x1", num 10); ("y1", num (-10)); ("x2", num 10); ("y2", num 10); ("class", str "stroke-slate-800 stroke-[3]")]) in
    let g := appendChild g (createEl "line" [("x1", num (-30)); ("y1", num 0); ("x2", num (-10)); ("y2", num 0); ("class", str "stroke-slate-800 stroke-[2]")]) in
    let g := appendChild g (createEl "line" [("x1", num 10); ("y1", num 0); ("x2", num 30); ("y2", num 0); ("class", str "stroke-slate-800 stroke-[2]")]) in
    let g := appendChild g (createEl "path" [("d", str "M -5 -15 L 5 -25 M 5 -15 L 15 -25"); ("class", str "stroke-slate-800 stroke-[1.5] fill-none")]) in
    let g := appendChild g (createEl "path" [("d", str "M 2 -25 L 5 -25 L 5 -22 M 12 -25 L 15 -25 L 15 -22"); ("class", str "stroke-slate-800 stroke-[1.5] fill-none")]) in
    (g, [pin "anode" (-30) 0; pin "cathode" 30 0])
  else
  if String.eqb type "source_v" then
    let g := appendChild g (createEl "circle" [("cx", num 0); ("cy", num 0); ("r", num 20); ("class", str "stroke-slate-800 stroke-[2] fill-none")]) in
    let plus := createEl "text" [("x", num (-5)); ("y", num (-5)); ("style", str "font-size: 16px; font-family: sans-serif;")] in
    let plus := set_textContent plus [Lit "+"] in
    let g := appendChild g plus in
    let minus := createEl "text" [("x", num (-3)); ("y", num 15); ("style", str "font-size: 16px; font-family: sans-serif;")] in
    let minus := set_textContent minus [Lit "-"] in
    let g := appendChild g minus in
    let g := appendChild g (createEl "line" [("x1", num 0); ("y1", num (-30)); ("x2", num 0); ("y2", num (-20)); ("class", str "stroke-slate-800 stroke-[2]")]) in
    let g := appendChild g (createEl "line" [("x1", num 0); ("y1", num 20); ("x2", num 0); ("y2", num 30); ("class", str "stroke-slate-800 stroke-[2]")]) in
    (g, [pin "top" 0 (-30); pin "bottom" 0 30])
  else
  if String.eqb type "source_i" then
    let g := appendChild g (createEl "circle" [("cx", num 0); ("cy", num 0); ("r", num 20); ("class", str "stroke-slate-800 stroke-[2] fill-none")]) in
    let g := appendChild g (createEl "path" [("d", str "M 0 -10 L 0 10 L 5 5 M 0 10 L -5 5"); ("class", str "stroke-slate-800 stroke-[2] fill-none")]) in
    let g := appendChild g (createEl "line" [("x1", num 0); ("y1", num (-30)); ("x2", num 0); ("y2", num (-20)); ("class", str "stroke-slate-800 stroke-[2]")]) in
    let g := appendChild g (createEl "line" [("x1", num 0); ("y1", num 20); ("x2", num 0); ("y2", num 30); ("class", str "stroke-slate-800 stroke-[2]")]) in
    (g, [pin "top" 0 (-30); pin "bottom" 0 30])
  else
  if String.eqb type "gnd" then
    let g := appendChild g (createEl "path" [("d", str "M 0 -10 L 0 0 M -15 0 L 15 0 M -10 5 L 10 5 M -5 10 L 5 10"); ("class", str "stroke-slate-800 stroke-[2] fill-none")]) in
    (g, [pin "top" 0 (-10)])
  else
  if String.eqb type "opamp" then
    let g := appendChild g (createEl "path" [("d", str "M -30 -35 L -30 35 L 35 0 Z"); ("class", str "stroke-slate-800 stroke-[2] fill-white")]) in
    let inv := createEl "text" [("x", num (-25)); ("y", num (-10)); ("style", str "font-size: 14px; font-family: sans-serif;")] in
    let inv := set_textContent inv [Lit "-"] in
    let g := appendChild g inv in
    let non := createEl "text" [("x", num (-25)); ("y", num 20); ("style", str "font-size: 14px; font-family: sans-serif;")] in
    let non := set_textContent non [Lit "+"] in
    let g := appendChild g non in
    let g := appendChild g (createEl "line" [("x1", num (-50)); ("y1", num (-15)); ("x2", num (-30)); ("y2", num (-15)); ("class", str "stroke-slate-800 stroke-[2]")]) in
    let g := appendChild g (createEl "line" [("x1", num (-50)); ("y1", num 15); ("x2", num (-30)); ("y2", num 15); ("class", str "stroke-slate-800 stroke-[2]")]) in
    let g := appendChild g (createEl "line" [("x1", num 35); ("y1", num 0); ("x2", num 55); ("y2", num 0); ("class", str "stroke-slate-800 stroke-[2]")]) in
    (g, [pin "in_inv" (-50) (-15); pin "in_non" (-50) 15; pin "out" 55 0])
  else
  if String.eqb type "transistor_npn" then
    let g := appendChild g (createEl "circle" [("cx", num 0); ("cy", num 0); ("r", num 25); ("class", str "stroke-slate-800 stroke-[1.5] fill-none")]) in
    let g := appendChild g (createEl "line" [("x1", num (-15)); ("y1", num (-15)); ("x2", num (-15)); ("y2", num 15); ("class", str "stroke-slate-800 stroke-[3]")]) in
    let g := appendChild g (createEl "line" [("x1", num (-30)); ("y1", num 0); ("x2", num (-15)); ("y2", num 0); ("class", str "stroke-slate-800 stroke-[2]")]) in
    let g := appendChild g (createEl "line" [("x1", num (-15)); ("y1", num (-10)); ("x2", num 15); ("y2", num (-25)); ("class", str "stroke-slate-800 stroke-[2]")]) in
    let g := appendChild g (createEl "line" [("x1", num 15); ("y1", num (-25)); ("x2", num 15); ("y2", num (-40)); ("class", str "stroke-slate-800 stroke-[2]")]) in
    let g := appendChild g (createEl "line" [("x1", num (-15)); ("y1", num 10); ("x2", num 15); ("y2", num 25); ("class", str "stroke-slate-800 stroke-[2]")]) in
    let g := appendChild g (createEl "line" [("x1", num 15); ("y1", num 25); ("x2", num 15); ("y2", num 40); ("class", str "stroke-slate-800 stroke-[2]")]) in
    let g := appendChild g (createEl "path" [("d", str "M 10 28 L 16 26 L 14 20"); ("class", str "stroke-slate-800 stroke-[2] fill-slate-800")]) in
    (g, [pin "base" (-30) 0; pin "collector" 15 (-40); pin "emitter" 15 40])
  else
  if String.eqb type "transistor_pnp" then
    let g := appendChild g (createEl "circle" [("cx", num 0); ("cy", num 0); ("r", num 25); ("class", str "stroke-slate-800 stroke-[1.5] fill-none")]) in
    let g := appendChild g (createEl "line" [("x1", num (-15)); ("y1", num (-15)); ("x2", num (-15)); ("y2", num 15); ("class", str "stroke-slate-800 stroke-[3]")]) in
    let g := appendChild g (createEl "line" [("x1", num (-30)); ("y1", num 0); ("x2", num (-15)); ("y2", num 0); ("class", str "stroke-slate-800 stroke-[2]")]) in
    let g := appendChild g (createEl "line" [("x1", num (-15)); ("y1", num (-10)); ("x2", num 15); ("y2", num (-25)); ("class", str "stroke-slate-800 stroke-[2]")]) in
    let g := appendChild g (createEl "line" [("x1", num 15); ("y1", num (-25)); ("x2", num 15); ("y2", num (-40)); ("class", str "stroke-slate-800 stroke-[2]")]) in
    let g := appendChild g (createEl "line" [("x1", num (-15)); ("y1", num 10); ("x2", num 15); ("y2", num 25); ("class", str "stroke-slate-800 stroke-[2]")]) in
    let g := appendChild g (createEl "line" [("x1", num 15); ("y1", num 25); ("x2", num 15); ("y2", num 40); ("class", str "stroke-slate-800 stroke-[2]")]) in
    let g := appendChild g (createEl "path" [("d", str "M -5 10 L -2 16 L -10 16"); ("class", str "stroke-slate-800 stroke-[2] fill-slate-800")]) in
    (g, [pin "base" (-30) 0; pin "collector" 15 (-40); pin "emitter" 15 40])
  else
  if String.eqb type "mosfet_n" then
    let g := appendChild g (createEl "circle" [("cx", num 0); ("cy", num 0); ("r", num 25); ("class", str "stroke-slate-800 stroke-[1.5] fill-none")]) in
    let g := appendChild g (createEl "line" [("x1", num (-15)); ("y1", num (-15)); ("x2", num (-15)); ("y2", num 15); ("class", str "stroke-slate-800 stroke-[2]")]) in
    let g := appendChild g (createEl "line" [("x1", num (-5)); ("y1", num (-15)); ("x2", num (-5)); ("y2", num (-5)); ("class", str "stroke-slate-800 stroke-[2]")]) in
    let g := appendChild g (createEl "line" [("x1", num (-5)); ("y1", num (-2)); ("x2", num (-5)); ("y2", num 2); ("class", str "stroke-slate-800 stroke-[2]")]) in
    let g := appendChild g (createEl "line" [("x1", num (-5)); ("y1", num 5); ("x2", num (-5)); ("y2", num 15); ("class", str "stroke-slate-800 stroke-[2]")]) in
    let g := appendChild g (createEl "line" [("x1", num (-30)); ("y1", num 0); ("x2", num (-15)); ("y2", num 0); ("class", str "stroke-slate-800 stroke-[2]")]) in
    let g := appendChild g (createEl "line" [("x1", num (-5)); ("y1", num (-10)); ("x2", num 15); ("y2", num (-10)); ("class", str "stroke-slate-800 stroke-[2]")]) in
    let g := appendChild g (createEl "line" [("x1", num 15); ("y1", num (-10)); ("x2", num 15); ("y2", num (-40)); ("class", str "stroke-slate-800 stroke-[2]")]) in
    let g := appendChild g (createEl "line" [("x1", num (-5)); ("y1", num 10); ("x2", num 15); ("y2", num 10); ("class", str "stroke-slate-800 stroke-[2]")]) in
    let g := appendChild g (createEl "line" [("x1", num 15); ("y1", num 10); ("x2", num 15); ("y2", num 40); ("class", str "stroke-slate-800 stroke-[2]")]) in
    let g := appendChild g (createEl "path" [("d", str "M -5 0 L 0 -3 L 0 3 Z"); ("class", str "fill-slate-800")]) in
    (g, [pin "gate" (-30) 0; pin "drain" 15 (-40); pin "source" 15 40])
  else
  if String.eqb type "mosfet_p" then
    let g := appendChild g (createEl "circle" [("cx", num 0); ("cy", num 0); ("r", num 25); ("class", str "stroke-slate-800 stroke-[1.5] fill-none")]) in
    let g := appendChild g (createEl "line" [("x1", num (-15)); ("y1", num (-15)); ("x2", num (-15)); ("y2", num 15); ("class", str "stroke-slate-800 stroke-[2]")]) in
    let g := appendChild g (createEl "line" [("x1", num (-5)); ("y1", num (-15)); ("x2", num (-5)); ("y2", num (-5)); ("class", str "stroke-slate-800 stroke-[2]")]) in
    let g := appendChild g (createEl "line" [("x1", num (-5)); ("y1", num (-2)); ("x2", num (-5)); ("y2", num 2); ("class", str "stroke-slate-800 stroke-[2]")]) in
    let g := appendChild g (createEl "line" [("x1", num (-5)); ("y1", num 5); ("x2", num (-5)); ("y2", num 15); ("class", str "stroke-slate-800 stroke-[2]")]) in
    let g := appendChild g (createEl "line" [("x1", num (-30)); ("y1", num 0); ("x2", num (-15)); ("y2", num 0); ("class", str "stroke-slate-800 stroke-[2]")]) in
    let g := appendChild g (createEl "line" [("x1", num (-5)); ("y1", num (-10)); ("x2", num 15); ("y2", num (-10)); ("class", str "stroke-slate-800 stroke-[2]")]) in
    let g := appendChild g (createEl "line" [("x1", num 15); ("y1", num (-10)); ("x2", num 15); ("y2", num (-40)); ("class", str "stroke-slate-800 stroke-[2]")]) in
    let g := appendChild g (createEl "line" [("x1", num (-5)); ("y1", num 10); ("x2", num 15); ("y2", num 10); ("class", str "stroke-slate-800 stroke-[2]")]) in
    let g := appendChild g (createEl "line" [("x1", num 15); ("y1", num 10); ("x2", num 15); ("y2", num 40); ("class", str "stroke-slate-800 stroke-[2]")]) in
    let g := appendChild g (createEl "path" [("d", str "M 0 0 L -5 -3 L -5 3 Z"); ("class", str "fill-slate-800")]) in
    (g, [pin "gate" (-30) 0; pin "drain" 15 (-40); pin "source" 15 40])
  else
  if String.eqb type "gate_and" then
    let g := appendChild g (createEl "path" [("d", str "M -30 -25 L -10 -25 A 25 25 0 0 1 -10 25 L -30 25 Z"); ("class", str "stroke-slate-800 stroke-[2] fill-white")]) in
    let g := appendChild g (createEl "line" [("x1", num (-45)); ("y1", num (-10)); ("x2", num (-30)); ("y2", num (-10)); ("class", str "stroke-slate-800 stroke-[2]")]) in
    let g := appendChild g (createEl "line" [("x1", num (-45)); ("y1", num 10); ("x2", num (-30)); ("y2", num 10); ("class", str "stroke-slate-800 stroke-[2]")]) in
    let g := appendChild g (createEl "line" [("x1", num 15); ("y1", num 0); ("x2", num 30); ("y2", num 0); ("class", str "stroke-slate-800 stroke-[2]")]) in
    (g, [pin "in1" (-45) (-10); pin "in2" (-45) 10; pin "out" 30 0])
  else
  if String.eqb type "gate_nand" then
    let g := appendChild g (createEl "path" [("d", str "M -30 -25 L -10 -25 A 25 25 0 0 1 -10 25 L -30 25 Z"); ("class", str "stroke-slate-800 stroke-[2] fill-white")]) in
    let g := appendChild g (createEl "circle" [("cx", num 20); ("cy", num 0); ("r", num 5); ("class", str "stroke-slate-800 stroke-[2] fill-white")]) in
    let g := appendChild g (createEl "line" [("x1", num (-45)); ("y1", num (-10)); ("x2", num (-30)); ("y2", num (-10)); ("class", str "stroke-slate-800 stroke-[2]")]) in
    let g := appendChild g (createEl "line" [("x1", num (-45)); ("y1", num 10); ("x2", num (-30)); ("y2", num 10); ("class", str "stroke-slate-800 stroke-[2]")]) in
    let g := appendChild g (createEl "line" [("x1", num 25); ("y1", num 0); ("x2", num 35); ("y2", num 0); ("class", str "stroke-slate-800 stroke-[2]")]) in
    (g, [pin "in1" (-45) (-10); pin "in2" (-45) 10; pin "out" 35 0])
  else
  if String.eqb type "gate_or" then
    let g := appendChild g (createEl "path" [("d", str "M -30 -25 Q -10 -25 5 0 Q -10 25 -30 25 Q -20 0 -30 -25"); ("class", str "stroke-slate-800 stroke-[2] fill-white")]) in
    let g := appendChild g (createEl "line" [("x1", num (-45)); ("y1", num (-10)); ("x2", num (-25)); ("y2", num (-10)); ("class", str "stroke-slate-800 stroke-[2]")]) in
    let g := appendChild g (createEl "line" [("x1", num (-45)); ("y1", num 10); ("x2", num (-25)); ("y2", num 10); ("class", str "stroke-slate-800 stroke-[2]")]) in
    let g := appendChild g (createEl "line" [("x1", num 5); ("y1", num 0); ("x2", num 25); ("y2", num 0); ("class", str "stroke-slate-800 stroke-[2]")]) in
    (g, [pin "in1" (-45) (-10); pin "in2" (-45) 10; pin "out" 25 0])
  else
  if String.eqb type "gate_nor" then
    let g := appendChild g (createEl "path" [("d", str "M -30 -25 Q -10 -25 5 0 Q -10 25 -30 25 Q -20 0 -30 -25"); ("class", str "stroke-slate-800 stroke-[2] fill-white")]) in
    let g := appendChild g (createEl "circle" [("cx", num 10); ("cy", num 0); ("r", num 5); ("class", str "stroke-slate-800 stroke-[2] fill-white")]) in
    let g := appendChild g (createEl "line" [("x1", num (-45)); ("y1", num (-10)); ("x2", num (-25)); ("y2", num (-10)); ("class", str "stroke-slate-800 stroke-[2]")]) in
    let g := appendChild g (createEl "line" [("x1", num (-45)); ("y1", num 10); ("x2", num (-25)); ("y2", num 10); ("class", str "stroke-slate-800 stroke-[2]")]) in
    let g := appendChild g (createEl "line" [("x1", num 15); ("y1", num 0); ("x2", num 30); ("y2", num 0); ("class", str "stroke-slate-800 stroke-[2]")]) in
    (g, [pin "in1" (-45) (-10); pin "in2" (-45) 10; pin "out" 30 0])
  else
  if String.eqb type "gate_not" then
    let g := appendChild g (createEl "path" [("d", str "M -20 -15 L -20 15 L 10 0 Z"); ("class", str "stroke-slate-800 stroke-[2] fill-white")]) in
    let g := appendChild g (createEl "circle" [("cx", num 15); ("cy", num 0); ("r", num 5); ("class", str "stroke-slate-800 stroke-[2] fill-white")]) in
    let g := appendChild g (createEl "line" [("x1", num (-35)); ("y1", num 0); ("x2", num (-20)); ("y2", num 0); ("class", str "stroke-slate-800 stroke-[2]")]) in
    let g := appendChild g (createEl "line" [("x1", num 20); ("y1", num 0); ("x2", num 35); ("y2", num 0); ("class", str "stroke-slate-800 stroke-[2]")]) in
    (g, [pin "in" (-35) 0; pin "out" 35 0])
  else
  if String.eqb type "gate_xor" then
    let g := appendChild g (createEl "path" [("d", str "M -25 -25 Q -5 -25 10 0 Q -5 25 -25 25 Q -15 0 -25 -25"); ("class", str "stroke-slate-800 stroke-[2] fill-white")]) in
    let g := appendChild g (createEl "path" [("d", str "M -32 -25 Q -22 0 -32 25"); ("class", str "stroke-slate-800 stroke-[2] fill-none")]) in
    let g := appendChild g (createEl "line" [("x1", num (-45)); ("y1", num (-10)); ("x2", num (-28)); ("y2", num (-10)); ("class", str "stroke-slate-800 stroke-[2]")]) in
    let g := appendChild g (createEl "line" [("x1", num (-45)); ("y1", num 10); ("x2", num (-28)); ("y2", num 10); ("class", str "stroke-slate-800 stroke-[2]")]) in
    let g := appendChild g (createEl "line" [("x1", num 10); ("y1", num 0); ("x2", num 25); ("y2", num 0); ("class", str "stroke-slate-800 stroke-[2]")]) in
    (g, [pin "in1" (-45) (-10); pin "in2" (-45) 10; pin "out" 25 0])
  else
    (g, []).

(** The tags that [drawSymbol] has a case for. *)
Definition symbol_types : list string :=
  [ "resistor"; "capacitor"; "inductor"; "diode"; "led";
    "source_v"; "source_i"; "gnd";
    "opamp";
    "transistor_npn"; "transistor_pnp";
    "mosfet_n"; "mosfet_p";
    "gate_and"; "gate_nand"; "gate_or"; "gate_nor"; "gate_not"; "gate_xor" ].

(** The relative pin positions of a type do not depend on the group the
    symbol is drawn into. *)
Definition pinOffsets (type : string) : list (string * (float * float)) :=
  snd (drawSymbol type (createElementNS "g")).

(** [getExportSVG]: [outerHTML] is the markup of the [svg] element as it
    stands, the root group included; the tree that is serialised. *)
Definition getExportSVG (this : TechDrawEngine) : Node :=
  plug (svg this) (node (activeLayer this)).

Section Engine.

(** The host's [Math.cos] and [Math.sin]. *)
Variables Math_cos Math_sin : float -> float.

Definition add (type id : string) (config : ComponentConfig) (this : TechDrawEngine)
  : Completion TechDrawEngine :=
  let x := cfg_x config in
  let y := cfg_y config in
  let rotate := default 0%float (cfg_rotate config) in
  let label := default "" (cfg_label config) in
  let g := createEl "g"
    [ ("class", str "symbol cursor-pointer hover:opacity-80 transition-opacity");
      ("transform", AStr [Lit "translate("; Dec x; Lit ","; Dec y;
                          Lit ") rotate("; Dec rotate; Lit ")"]);
      ("data-id", str id) ] in
  let '(g, pins) := drawSymbol type g in
  let g :=
    if truthy_string label then
      let txt := createEl "text"
        [ ("x", num 0); ("y", num (-45));
          ("class", str "fill-slate-600 font-sans text-xs font-bold text-anchor-middle text-center") ] in
      let txt := set_textContent txt [Lit label] in
      let txt := setAttribute txt "transform" [Lit "rotate("; Dec (- rotate)%float; Lit ")"] in
      let txt := setAttribute txt "text-anchor" [Lit "middle"] in
      appendChild g txt
    else g in
  let layer := appendChild (activeLayer this) g in
  let rad := (rotate * Math_PI / 180)%float in
  let cos := Math_cos rad in
  let sin := Math_sin rad in
  let absPins :=
    fold_left (fun (absPins : gmap string PinPosition) (entry : string * (float * float)) =>
      let '(key, (px, py)) := entry in
      let rx := (px * cos - py * sin)%float in
      let ry := (px * sin + py * cos)%float in
      <[key := {| pin_x := (x + rx)%float; pin_y := (y + ry)%float |}]> absPins)
      pins ∅ in
  Normal {| svg := svg this; activeLayer := layer;
            components :=
              <[id := {| inst_id := id; inst_type := type; inst_x := x; inst_y := y;
                         inst_rotation := rotate; inst_pins := absPins |}]>
                (components this);
            console := console this |}.

(** The absolute position of a pin in the words of the specification:
    the offset [(px, py)] rotated by [rotation] degrees,
    [rx = px cos θ - py sin θ], [ry = px sin θ + py cos θ], then
    translated by [(x, y)]. *)
Definition spec_absolute (x y rotation : float) (offset : float * float) : PinPosition :=
  let θ := (rotation * Math_PI / 180)%float in
  {| pin_x := (x + (offset.1 * Math_cos θ - offset.2 * Math_sin θ))%float;
     pin_y := (y + (offset.1 * Math_sin θ + offset.2 * Math_cos θ))%float |}.

(** The instance that [add] registers. *)
Definition placed (type id : string) (config : ComponentConfig) : ComponentInstance :=
  let rotation := default 0%float (cfg_rotate config) in
  {| inst_id := id; inst_type := type;
     inst_x := cfg_x config; inst_y := cfg_y config; inst_rotation := rotation;
     inst_pins := spec_absolute (cfg_x config) (cfg_y config) rotation
                    <$> (list_to_map (pinOffsets type) : gmap string (float * float)) |}.

Definition connect (fromId fromPin toId toPin : string) (this : TechDrawEngine)
  : Completion TechDrawEngine :=
  let c1 := components this !! fromId in
  let c2 := components this !! toId in
  if negb (bool_decide (is_Some c1)) || negb (bool_decide (is_Some c2)) then
    Normal (console_warn
      [Lit "Connection failed: invalid IDs "; Lit fromId; Lit " -> "; Lit toId] this)
  else
    pins1 ← prop_pins c1;
    pins2 ← prop_pins c2;
    let p1 := Get pins1 fromPin in
    let p2 := Get pins2 toPin in
    if negb (bool_decide (is_Some p1)) || negb (bool_decide (is_Some p2)) then
      Normal (console_warn
        [Lit "Connection failed: invalid pins "; Lit fromPin; Lit " -> "; Lit toPin] this)
    else
      p1x ← prop pin_x p1;
      p1y ← prop pin_y p1;
      p2x ← prop pin_x p2;
      p2y ← prop pin_y p2;
      (* Manhattan routing *)
      let d := Lit "M " :: ToString p1x ++ Lit " " :: ToString p1y ++ [Lit " "] in
      let midX := (plus p1x p2x / 2)%float in
      let midY := (plus p1y p2y / 2)%float in
      let deltaX := Math_abs (minus p1x p2x) in
      let deltaY := Math_abs (minus p1y p2y) in
      let d :=
        if gt deltaX deltaY then
          (* horizontal priority *)
          d ++ Lit "L " :: Dec midX :: Lit " " :: ToString p1y
            ++ Lit " L " :: Dec midX :: Lit " " :: ToString p2y
            ++ Lit " L " :: ToString p2x ++ Lit " " :: ToString p2y
        else
          (* vertical priority *)
          d ++ Lit "L " :: ToString p1x ++ Lit " " :: Dec midY
            :: Lit " L " :: ToString p2x ++ Lit " " :: Dec midY
            :: Lit " L " :: ToString p2x ++ Lit " " :: ToString p2y in
      let path := createEl "path"
        [("d", AStr d); ("class", str "stroke-slate-700 stroke-[2] fill-none")] in
      (* connections are drawn behind the components *)
      let layer :=
        if bool_decide (is_Some (firstChild (activeLayer this)))
        then insertBefore (activeLayer this) path 0
        else appendChild (activeLayer this) path in
      (* solder dots *)
      let layer := appendChild layer (createEl "circle"
        [("cx", ANum p1x); ("cy", ANum p1y); ("r", num 3); ("class", str "fill-slate-800")]) in
      let layer := appendChild layer (createEl "circle"
        [("cx", ANum p2x); ("cy", ANum p2y); ("r", num 3); ("class", str "fill-slate-800")]) in
      Normal {| svg := svg this; activeLayer := layer;
                components := components this; console := console this |}.

(** The value of [p.x], [p.y] for a member [p]. *)
Definition coordinate (f : PinPosition -> float) (p : Member) : Value :=
  match p with
  | Own q => Num (f q)
  | Inherited _ => Undefined
  end.

(** The path data that [connect] computes from the four coordinates. *)
Definition route (p1x p1y p2x p2y : Value) : JSString :=
  let d := Lit "M " :: ToString p1x ++ Lit " " :: ToString p1y ++ [Lit " "] in
  let midX := (plus p1x p2x / 2)%float in
  let midY := (plus p1y p2y / 2)%float in
  if gt (Math_abs (minus p1x p2x)) (Math_abs (minus p1y p2y)) then
    d ++ Lit "L " :: Dec midX :: Lit " " :: ToString p1y
      ++ Lit " L " :: Dec midX :: Lit " " :: ToString p2y
      ++ Lit " L " :: ToString p2x ++ Lit " " :: ToString p2y
  else
    d ++ Lit "L " :: ToString p1x ++ Lit " " :: Dec midY
      :: Lit " L " :: ToString p2x ++ Lit " " :: Dec midY
      :: Lit " L " :: ToString p2x ++ Lit " " :: ToString p2y.

(** A sequence of calls, run in program order; an exception ends it. *)
Inductive Call : Type :=
| CallAdd (type id : string) (config : ComponentConfig)
| CallConnect (fromId fromPin toId toPin : string)
| CallReset.

Definition call (c : Call) (this : TechDrawEngine) : Completion TechDrawEngine :=
  match c with
  | CallAdd type id config => add type id config this
  | CallConnect fromId fromPin toId toPin => connect fromId fromPin toId toPin this
  | CallReset => reset this
  end.

Fixpoint run (cs : list Call) (this : TechDrawEngine) : Completion TechDrawEngine :=
  match cs with
  | [] => Normal this
  | c :: cs => this ← call c this; run cs this
  end.

(** The states an engine can be in: what a sequence of calls makes of a
    freshly constructed engine. *)
Definition reachable (this : TechDrawEngine) : Prop :=
  ∃ svgElement rootGroup cs, run cs (constructor svgElement rootGroup) = Normal this.

End Engine.

(** ** Reading path data

    The vertices of a path whose data is a move [M x y] followed by line
    segments [L x y], as the SVG grammar reads it: the commands and the
    numbers are separated by spaces.  A string where a number touches
    another token is not read.  The numbers are taken as they are written,
    NaN and the infinities included. *)

Module Svg.

Inductive Item : Type :=
| Ch (c : ascii)
| Nb (n : float).

Definition items (d : JSString) : list Item :=
  flat_map (fun f => match f with
                     | Lit s => Ch <$> list_ascii_of_string s
                     | Dec n => [Nb n]
                     end) d.

Inductive Token : Type :=
| Word (w : string)
| Number (n : float).

Definition flush (cur : string) (ts : list Token) : list Token :=
  if String.eqb cur "" then ts else Word cur :: ts.

Fixpoint lex (l : list Item) (cur : string) : option (list Token) :=
  match l with
  | [] => Some (flush cur [])
  | Ch c :: l' =>
      if Ascii.eqb c " " then flush cur <$> lex l' ""
      else lex l' (cur ++ String c "")
  | Nb n :: l' =>
      if String.eqb cur "" then
        match l' with
        | [] => Some [Number n]
        | Ch c :: _ => if Ascii.eqb c " " then cons (Number n) <$> lex l' "" else None
        | Nb _ :: _ => None
        end
      else None
  end.

Fixpoint segments (ts : list Token) : option (list (float * float)) :=
  match ts with
  | [] => Some []
  | Word w :: Number x :: Number y :: ts' =>
      if String.eqb w "L" then cons (x, y) <$> segments ts' else None
  | _ => None
  end.

Definition vertices (d : JSString) : option (list (float * float)) :=
  match lex (items d) "" with
  | Some (Word w :: Number x :: Number y :: ts) =>
      if String.eqb w "M" then cons (x, y) <$> segments ts else None
  | _ => None
  end.

End Svg.

(** ** The pin contract of the specification

    The table of section 4.1, with the tags of [ComponentType] for the
    type classes it names. *)
Definition pin_contract : list (string * list string) :=
  [ ("resistor", ["left"; "right"]);
    ("capacitor", ["left"; "right"]);
    ("inductor", ["left"; "right"]);
    ("diode", ["anode"; "cathode"]);
    ("led", ["anode"; "cathode"]);
    ("source_v", ["top"; "bottom"]);
    ("source_i", ["top"; "bottom"]);
    ("gnd", ["top"]);
    ("opamp", ["in_inv"; "in_non"; "out"]);
    ("transistor_npn", ["base"; "collector"; "emitter"]);
    ("transistor_pnp", ["base"; "collector"; "emitter"]);
    ("mosfet_n", ["gate"; "drain"; "source"]);
    ("mosfet_p", ["gate"; "drain"; "source"]);
    ("gate_not", ["in"; "out"]);
    ("gate_and", ["in1"; "in2"; "out"]);
    ("gate_or", ["in1"; "in2"; "out"]);
    ("gate_nand", ["in1"; "in2"; "out"]);
    ("gate_nor", ["in1"; "in2"; "out"]);
    ("gate_xor", ["in1"; "in2"; "out"]) ].

(** ** Sample inputs *)

(** A config with a position only. *)
Definition at_ (x y : float) : ComponentConfig :=
  {| cfg_x := x; cfg_y := y; cfg_rotate := None; cfg_label := None |}.
Arguments at_ (x y)%_float.

(** A fresh engine on an empty root group. *)
Definition blank : TechDrawEngine := constructor Here (createElementNS "g").

(** Two resistors, 200 units apart. *)
Definition two_resistors : TechDrawEngine :=
  match run Host.Math_cos Host.Math_sin
          [CallAdd "resistor" "r1" (at_ (-100) 0); CallAdd "resistor" "r2" (at_ 100 0)]
          blank with
  | Normal this => this
  | Throw _ => blank
  end.

(** One resistor at the origin. *)
Definition one_resistor : TechDrawEngine :=
  match add Host.Math_cos Host.Math_sin "resistor" "r1" (at_ 0 0) blank with
  | Normal this => this
  | Throw _ => blank
  end.

(** A resistor at the origin, turned by 90 degrees. *)
Definition upright : ComponentConfig :=
  {| cfg_x := 0%float; cfg_y := 0%float; cfg_rotate := Some 90%float; cfg_label := None |}.

(** The pin names of an instance are those of the symbol of its type. *)
Definition pin_names_ok (this : TechDrawEngine) : Prop :=
  forall id c,
    components this !! id = Some c ->
    dom (inst_pins c) = list_to_set (pinOffsets (inst_type c)).*1.


(** ** What a call draws *)

(** [el.getAttribute(k)] *)
Fixpoint assoc (k : string) (l : list (string * JSString)) : option JSString :=
  match l with
  | [] => None
  | (k', v) :: r => if String.eqb k' k then Some v else assoc k r
  end.

Definition getAttribute (n : Node) (k : string) : option JSString :=
  match n with
  | ElementNode _ a _ => assoc k a
  | TextNode _ => None
  end.

(** The primitives of a symbol, in drawing order. *)
Definition geometry (type : string) : list Node :=
  childNodes (drawSymbol type (createElementNS "g")).1.

(** The label of a placement: nothing for no label or an empty one, else
    one text element above the origin, turned back by the rotation and
    centred. *)
Definition label_nodes (config : ComponentConfig) : list Node :=
  let rotate := default 0%float (cfg_rotate config) in
  match cfg_label config with
  | None => []
  | Some label =>
      if String.eqb label "" then []
      else [ElementNode "text"
              [("x", [Dec 0]); ("y", [Dec (-45)]);
               ("class", [Lit "fill-slate-600 font-sans text-xs font-bold text-anchor-middle text-center"]);
               ("transform", [Lit "rotate("; Dec (- rotate)%float; Lit ")"]);
               ("text-anchor", [Lit "middle"])]
              [TextNode [Lit label]]]
  end.

(** The group that [add] draws. *)
Definition drawn_group (type id : string) (config : ComponentConfig) : Element :=
  {| tagName := "g";
     attributes :=
       [("class", [Lit "symbol cursor-pointer hover:opacity-80 transition-opacity"]);
        ("transform", [Lit "translate("; Dec (cfg_x config); Lit ","; Dec (cfg_y config);
                       Lit ") rotate("; Dec (default 0%float (cfg_rotate config)); Lit ")"]);
        ("data-id", [Lit id])];
     childNodes := geometry type ++ label_nodes config |}.

(** The draw order keeps the wires behind everything else: the children
    of the layer are paths first, then groups and circles. *)
Definition wires_behind (children : list Node) : Prop :=
  exists wires rest,
    children = wires ++ rest /\
    Forall (fun n => nodeName n = "path") wires /\
    Forall (fun n => nodeName n <> "path") rest.

(** Every registered instance is filed under its own id and has a group
    in the layer that carries this id. *)
Definition registered_are_drawn (this : TechDrawEngine) : Prop :=
  forall id c,
    components this !! id = Some c ->
    inst_id c = id /\
    exists g, g ∈ childNodes (activeLayer this) /\
              nodeName g = "g" /\ getAttribute g "data-id" = Some [Lit id].

(** What one call can do to an engine: place a group, draw a wire, log a
    warning, or clear. *)
Inductive effect (this : TechDrawEngine) : TechDrawEngine -> Prop :=
| effect_place (g : Element) (id : string) (c : ComponentInstance) :
    tagName g = "g" ->
    getAttribute (node g) "data-id" = Some [Lit id] ->
    inst_id c = id ->
    effect this {| svg := svg this;
                   activeLayer := appendChild (activeLayer this) (node g);
                   components := <[id := c]> (components this);
                   console := console this |}
| effect_wire (path dot1 dot2 : Node) :
    nodeName path = "path" -> nodeName dot1 = "circle" -> nodeName dot2 = "circle" ->
    effect this {| svg := svg this;
                   activeLayer := setChildren (activeLayer this)
                                    (path :: childNodes (activeLayer this) ++ [dot1; dot2]);
                   components := components this;
                   console := console this |}
| effect_warn (msg : JSString) :
    effect this (console_warn msg this)
| effect_clear :
    effect this {| svg := svg this;
                   activeLayer := setChildren (activeLayer this) [];
                   components := ∅;
                   console := console this |}.

(** The ids that are registered after a sequence of calls, from the ids
    registered before it. *)
Fixpoint registered (cs : list Call) (ids : gset string) : gset string :=
  match cs with
  | [] => ids
  | CallAdd _ id _ :: cs => registered cs ({[id]} ∪ ids)
  | CallConnect _ _ _ _ :: cs => registered cs ids
  | CallReset :: cs => registered cs ∅
  end.

(** The number of [connect] calls of a sequence. *)
Fixpoint connects (cs : list Call) : nat :=
  match cs with
  | [] => 0
  | CallConnect _ _ _ _ :: cs => S (connects cs)
  | _ :: cs => connects cs
  end.

(** Two engines show the same drawing and hold the same registry. *)
Definition same_drawing (a b : TechDrawEngine) : Prop :=
  childNodes (activeLayer a) = childNodes (activeLayer b) /\
  components a = components b.

(** Every segment of a polyline is horizontal or vertical. *)
Fixpoint axis_aligned (vs : list (float * float)) : Prop :=
  match vs with
  | a :: (b :: _) as rest => (a.1 = b.1 \/ a.2 = b.2) /\ axis_aligned rest
  | _ => True
  end.


(** ** The generation service: cleaning the generated code

    What [generateSchematicCode] does to the text of the model's response
    before it returns it.  A string is its sequence of UTF-16 code units:
    the regular expressions have no [u] flag, and [trim] is defined on
    code units. *)

Module Gemini.

(** Three backticks, and three backticks followed by [javascript]. *)
Definition fence : list N := [96; 96; 96]%N.

Definition fence_javascript : list N :=
  [96; 96; 96; 106; 97; 118; 97; 115; 99; 114; 105; 112; 116]%N.

(** The pattern matches at the beginning of the string. *)
Fixpoint matches_at (pattern s : list N) : bool :=
  match pattern, s with
  | [], _ => true
  | _ :: _, [] => false
  | p :: pattern, c :: s => N.eqb p c && matches_at pattern s
  end.

(** [s.replace(/pattern/g, '')] for a pattern of literal characters
    [p :: pattern]: the matches are found from left to right, each search
    starting where the match before it ended. *)
Equations? replace_g (p : N) (pattern : list N) (s : list N) : list N
  by wf (length s) lt :=
  replace_g p pattern [] := [];
  replace_g p pattern (c :: s) with inspect (matches_at (p :: pattern) (c :: s)) := {
    | exist _ true _ => replace_g p pattern (drop (length pattern) s);
    | exist _ false _ => c :: replace_g p pattern s }.
Proof.
  all: simpl; rewrite ?length_drop; lia.
Qed.

(** White space and line terminators of ECMAScript. *)
Definition is_space (c : N) : bool :=
  bool_decide (c ∈ [9; 10; 11; 12; 13; 32; 160; 5760; 8192; 8193; 8194; 8195; 8196;
                    8197; 8198; 8199; 8200; 8201; 8202; 8232; 8233; 8239; 8287;
                    12288; 65279]%N).

Fixpoint trimStart (s : list N) : list N :=
  match s with
  | [] => []
  | c :: s' => if is_space c then trimStart s' else s
  end.

Fixpoint trimEnd (s : list N) : list N :=
  match s with
  | [] => []
  | c :: s' =>
      match trimEnd s' with
      | [] => if is_space c then [] else [c]
      | r => c :: r
      end
  end.

Definition trim (s : list N) : list N := trimEnd (trimStart s).

(** [response.text || ""], then the two replacements and the trim. *)
Definition sanitize (text : option (list N)) : list N :=
  let code := match text with
              | Some (c :: s) => c :: s
              | _ => []
              end in
  trim (replace_g 96 [96; 96]%N
          (replace_g 96 [96; 96; 106; 97; 118; 97; 115; 99; 114; 105; 112; 116]%N code)).

(** The pattern occurs somewhere in the string. *)
Fixpoint occurs (pattern s : list N) : bool :=
  match s with
  | [] => matches_at pattern []
  | _ :: s' => matches_at pattern s || occurs pattern s'
  end.

(** The number of backticks the string starts with. *)
Fixpoint ticks (s : list N) : nat :=
  match s with
  | c :: s' => if N.eqb c 96 then S (ticks s') else 0
  | [] => 0
  end.

End Gemini.

(** ** The canvas: zooming the view

    The scale of the view transform of [Canvas], and the three handlers
    that change it.  [Math.min] and [Math.max] of two numbers: NaN if one
    of them is NaN, and [-0] counts as less than [+0]. *)

Module Canvas.

Definition Math_min (a b : float) : float :=
  if is_nan a || is_nan b then nan
  else if (a <? b)%float then a
  else if (b <? a)%float then b
  else if is_zero a && get_sign a then a else b.

Definition Math_max (a b : float) : float :=
  if is_nan a || is_nan b then nan
  else if (b <? a)%float then a
  else if (a <? b)%float then b
  else if is_zero a && negb (get_sign a) then a else b.

Record Transform := { x : float; y : float; scale : float }.

(** [useState({ x: 0, y: 0, scale: 1 })] *)
Definition initial : Transform := {| x := 0; y := 0; scale := 1 |}.

(** [handleWheel]: the new scale is computed from the transform of the
    render ([transform]), and written into the latest state ([prev]).
    The literals are 0.05 and 0.1. *)
Definition handleWheel (deltaY : float) (transform prev : Transform) : Transform :=
  let scaleFactor := 0x1.999999999999ap-5%float in
  let delta := if gt deltaY 0 then (- scaleFactor)%float else scaleFactor in
  let newScale := Math_max 0x1.999999999999ap-4 (Math_min 5 (scale transform + delta)) in
  {| x := x prev; y := y prev; scale := newScale |}.

(** The literal is 1.2. *)
Definition zoomIn (prev : Transform) : Transform :=
  {| x := x prev; y := y prev;
     scale := Math_min 5 (scale prev * 0x1.3333333333333p+0) |}.

Definition zoomOut (prev : Transform) : Transform :=
  {| x := x prev; y := y prev;
     scale := Math_max 0x1.999999999999ap-4 (scale prev / 0x1.3333333333333p+0) |}.

Definition resetZoom (transform : Transform) : Transform :=
  {| x := x transform; y := y transform; scale := 1 |}.

(** [lo <= v <= hi], false for NaN. *)
Definition between (lo hi v : float) : bool := (lo <=? v)%float && (v <=? hi)%float.

End Canvas.

(** * Properties *)

(** ** The symbol library *)

(** Case analysis along the [switch] of [drawSymbol]. *)
Ltac switch_type type :=
  repeat match goal with
         | |- context [String.eqb type ?s] =>
             destruct (String.eqb_spec type s) as [->|?]
         end.

Lemma drawSymbol_pins (type : string) (g : Element) :
  snd (drawSymbol type g) = pinOffsets type.
Proof.
  unfold pinOffsets, drawSymbol. switch_type type; reflexivity.
Qed.

Lemma drawSymbol_default (type : string) (g : Element) :
  type ∉ symbol_types -> drawSymbol type g = (g, []).
Proof.
  intros Hno. unfold drawSymbol.
  switch_type type; try reflexivity;
    exfalso; apply Hno; unfold symbol_types; repeat constructor.
Qed.

Lemma pinOffsets_NoDup (type : string) : NoDup (pinOffsets type).*1.
Proof.
  unfold pinOffsets, drawSymbol.
  switch_type type; apply (bool_decide_unpack _); vm_compute; exact I.
Qed.

(** ** Placement *)

(** A loop that assigns [absPins[key] = f offset] for every entry of an
    object whose keys are distinct builds the map of the [f offset]. *)
Lemma fold_left_assign {A B : Type} (f : A -> B)
    (step : gmap string B -> string * A -> gmap string B) (l : list (string * A)) :
  (forall m e, step m e = <[e.1 := f e.2]> m) ->
  NoDup l.*1 ->
  fold_left step l ∅ = f <$> (list_to_map l : gmap string A).
Proof.
  intros Hstep. induction l as [|[k a] l IH] using rev_ind; intros Hnd.
  - simpl. by rewrite fmap_empty.
  - rewrite fmap_app in Hnd. apply NoDup_app in Hnd as (Hl & Hfresh & _).
    rewrite fold_left_app. simpl. rewrite Hstep, (IH Hl). simpl.
    rewrite list_to_map_snoc, fmap_insert; [done|].
    intros Hin. apply (Hfresh k Hin). simpl. constructor.
Qed.

Section Placement.

Variables Math_cos Math_sin : float -> float.

(** [add] returns normally; it appends one group to the layer and sets the
    registry entry of [id]. *)
Lemma add_Normal (type id : string) (config : ComponentConfig) (this : TechDrawEngine) :
  exists g : Element,
    tagName g = "g" /\
    (type ∉ symbol_types ->
       Forall (fun n => nodeName n = "text") (childNodes g) /\
       (cfg_label config = None -> childNodes g = [])) /\
    add Math_cos Math_sin type id config this =
      Normal {| svg := svg this;
                activeLayer := appendChild (activeLayer this) g;
                components := <[id := placed Math_cos Math_sin type id config]> (components this);
                console := console this |}.
Proof.
  unfold add.
  set (g0 := createEl "g" _).
  pose proof (drawSymbol_pins type g0) as Hpins.
  pose proof (drawSymbol_default type g0) as Hdef.
  assert (Htag : tagName (drawSymbol type g0).1 = "g").
  { unfold drawSymbol. switch_type type; reflexivity. }
  destruct (drawSymbol type g0) as [g pins]. simpl in Hpins, Htag. subst pins.
  eexists. split; [|split]; [| |unfold placed; f_equal; f_equal; f_equal; f_equal].
  3: { apply (fold_left_assign (spec_absolute Math_cos Math_sin _ _ _));
       [|apply pinOffsets_NoDup].
       intros m [key [px py]]. reflexivity. }
  - destruct (truthy_string _); [unfold appendChild, setChildren; simpl|]; exact Htag.
  - intros Hno. specialize (Hdef Hno). injection Hdef as ->. split.
    + destruct (truthy_string _); repeat constructor.
    + intros ->. reflexivity.
Qed.

End Placement.

(** ** Routing *)

(** [pins[k]] of an own property. *)
Lemma Get_own (o : gmap string PinPosition) (k : string) (p : PinPosition) :
  o !! k = Some p -> Get o k = Some (Own p).
Proof. intros H. unfold Get. by rewrite H. Qed.

(** [pins[k]] is [undefined] exactly when [k] is neither an own property
    nor a property of [Object.prototype]. *)
Lemma Get_None (o : gmap string PinPosition) (k : string) :
  Get o k = None <-> o !! k = None /\ k ∉ Object_prototype_keys.
Proof.
  unfold Get. destruct (o !! k) as [p|].
  - split; [discriminate | intros [? _]; discriminate].
  - case_bool_decide; split; try discriminate; tauto.
Qed.

(** What [connect] does once both pins are looked up with a truthy
    result: one path in front of the child list, two circles at its end. *)
Lemma connect_truthy (fromId fromPin toId toPin : string) (this : TechDrawEngine)
    (c1 c2 : ComponentInstance) (p1 p2 : Member) :
  components this !! fromId = Some c1 ->
  components this !! toId = Some c2 ->
  Get (inst_pins c1) fromPin = Some p1 ->
  Get (inst_pins c2) toPin = Some p2 ->
  connect fromId fromPin toId toPin this =
      Normal {| svg := svg this;
                activeLayer := setChildren (activeLayer this)
                  (ElementNode "path"
                     [("d", route (coordinate pin_x p1) (coordinate pin_y p1)
                                  (coordinate pin_x p2) (coordinate pin_y p2));
                      ("class", [Lit "stroke-slate-700 stroke-[2] fill-none"])] []
                   :: childNodes (activeLayer this)
                   ++ [ ElementNode "circle"
                          [("cx", ToString (coordinate pin_x p1));
                           ("cy", ToString (coordinate pin_y p1));
                           ("r", [Dec 3]); ("class", [Lit "fill-slate-800"])] [];
                        ElementNode "circle"
                          [("cx", ToString (coordinate pin_x p2));
                           ("cy", ToString (coordinate pin_y p2));
                           ("r", [Dec 3]); ("class", [Lit "fill-slate-800"])] [] ]);
                components := components this;
                console := console this |}.
Proof.
  intros H1 H2 G1 G2. unfold connect. rewrite H1, H2. simpl. rewrite G1, G2. simpl.
  destruct p1 as [q1|k1], p2 as [q2|k2]; simpl;
    (destruct (activeLayer this) as [t a [|c l]]; simpl;
     unfold appendChild, insertBefore, setChildren, node; simpl;
     rewrite <- ?app_assoc; reflexivity).
Qed.

(** [a > a] is false for every number, NaN included. *)
Lemma gt_irrefl (a : float) : gt a a = false.
Proof.
  unfold gt. rewrite ltb_spec. unfold SFltb, SFcompare.
  destruct (Prim2SF a) as [s|s| |s m e]; try destruct s; try reflexivity;
    rewrite Z.compare_refl, Pos.compare_refl; reflexivity.
Qed.

(** [connect] never throws and never touches the registry or the host
    document. *)
Lemma connect_Normal (fromId fromPin toId toPin : string) (this : TechDrawEngine) :
  exists this',
    connect fromId fromPin toId toPin this = Normal this' /\
    components this' = components this /\
    svg this' = svg this.
Proof.
  destruct (components this !! fromId) as [c1|] eqn:H1;
    [destruct (components this !! toId) as [c2|] eqn:H2|];
    [destruct (Get (inst_pins c1) fromPin) as [p1|] eqn:G1;
       [destruct (Get (inst_pins c2) toPin) as [p2|] eqn:G2|]| |].
  - rewrite (connect_truthy _ _ _ _ _ _ _ _ _ H1 H2 G1 G2). eauto.
  - unfold connect. rewrite H1, H2. simpl. rewrite G1, G2. simpl. eauto.
  - unfold connect. rewrite H1, H2. simpl. rewrite G1. simpl. eauto.
  - unfold connect. rewrite H1, H2. simpl. eauto.
  - unfold connect. rewrite H1. simpl. eauto.
Qed.

(** A call that names an id that is not registered, or a pin name that
    [pins[name]] does not find, only logs a warning. *)
Lemma connect_unresolved (fromId fromPin toId toPin : string) (this : TechDrawEngine) :
  (components this !! fromId = None \/
   components this !! toId = None \/
   (exists c1, components this !! fromId = Some c1 /\ Get (inst_pins c1) fromPin = None) \/
   (exists c2, components this !! toId = Some c2 /\ Get (inst_pins c2) toPin = None)) ->
  exists msg : JSString,
    connect fromId fromPin toId toPin this = Normal (console_warn msg this).
Proof.
  unfold connect.
  destruct (components this !! fromId) as [c1|] eqn:H1;
    destruct (components this !! toId) as [c2|] eqn:H2; simpl; eauto.
  intros [H|[H|[(c & H & G)|(c & H & G)]]]; try discriminate;
    injection H as <-; rewrite G; simpl; eauto.
  destruct (Get (inst_pins c1) fromPin); simpl; eauto.
Qed.

(** C1: for two registered pins [p1], [p2], [connect] emits a path of four
    vertices (two bends): [p1, (midX, p1.y), (midX, p2.y), p2] when
    [|p1.x - p2.x| > |p1.y - p2.y|], and [p1, (p1.x, midY), (p2.x, midY), p2]
    otherwise, the tie included; [midX] and [midY] are the midpoints
    [(p1.x + p2.x) / 2] and [(p1.y + p2.y) / 2]. *)
Theorem connect_route (this : TechDrawEngine) (fromId fromPin toId toPin : string)
    (c1 c2 : ComponentInstance) (p1 p2 : PinPosition) :
  components this !! fromId = Some c1 ->
  components this !! toId = Some c2 ->
  inst_pins c1 !! fromPin = Some p1 ->
  inst_pins c2 !! toPin = Some p2 ->
  let midX := ((pin_x p1 + pin_x p2) / 2)%float in
  let midY := ((pin_y p1 + pin_y p2) / 2)%float in
  let deltaX := Math_abs (pin_x p1 - pin_x p2) in
  let deltaY := Math_abs (pin_y p1 - pin_y p2) in
  let horizontal :=
    [(pin_x p1, pin_y p1); (midX, pin_y p1); (midX, pin_y p2); (pin_x p2, pin_y p2)] in
  let vertical :=
    [(pin_x p1, pin_y p1); (pin_x p1, midY); (pin_x p2, midY); (pin_x p2, pin_y p2)] in
  exists this' d rest,
    connect fromId fromPin toId toPin this = Normal this' /\
    childNodes (activeLayer this') =
      ElementNode "path"
        [("d", d); ("class", [Lit "stroke-slate-700 stroke-[2] fill-none"])] [] :: rest /\
    Svg.vertices d = Some (if gt deltaX deltaY then horizontal else vertical) /\
    (deltaX = deltaY -> Svg.vertices d = Some vertical).
Proof.
  intros H1 H2 G1%Get_own G2%Get_own. intros.
  rewrite (connect_truthy _ _ _ _ _ _ _ _ _ H1 H2 G1 G2). simpl.
  do 3 eexists. split; [reflexivity|]. split; [reflexivity|].
  assert (Hv : Svg.vertices (route (Num (pin_x p1)) (Num (pin_y p1))
                                   (Num (pin_x p2)) (Num (pin_y p2)))
               = Some (if gt deltaX deltaY then horizontal else vertical)).
  { unfold route.
    change (gt (Math_abs (minus _ _)) (Math_abs (minus _ _))) with (gt deltaX deltaY).
    destruct (gt deltaX deltaY); reflexivity. }
  split; [exact Hv|].
  intros Heq. rewrite Hv, Heq, gt_irrefl. reflexivity.
Qed.

Lemma connect_route_witness :
  exists this' d rest,
    connect "r1" "right" "r2" "left" two_resistors = Normal this' /\
    childNodes (activeLayer this') =
      ElementNode "path"
        [("d", d); ("class", [Lit "stroke-slate-700 stroke-[2] fill-none"])] [] :: rest /\
    Svg.vertices d = Some [((-70)%float, 0%float); (0%float, 0%float);
                           (0%float, 0%float); (70%float, 0%float)].
Proof.
  destruct (connect_route two_resistors "r1" "right" "r2" "left"
              (placed Host.Math_cos Host.Math_sin "resistor" "r1" (at_ (-100) 0))
              (placed Host.Math_cos Host.Math_sin "resistor" "r2" (at_ 100 0))
              {| pin_x := (-70)%float; pin_y := 0%float |}
              {| pin_x := 70%float; pin_y := 0%float |})
    as (this' & d & rest & Hc & Hl & Hv & _);
    [vm_compute; reflexivity ..|].
  exists this', d, rest. split; [exact Hc|]. split; [exact Hl|]. exact Hv.
Defined.

(** C4: when both (id, pin) pairs resolve, [connect] adds exactly three
    primitives to the layer: one path, placed before every child the layer
    had (the back of the draw order), and two circles, appended after them
    (the front). *)
Theorem connect_emits (this : TechDrawEngine) (fromId fromPin toId toPin : string)
    (c1 c2 : ComponentInstance) (p1 p2 : Member) :
  components this !! fromId = Some c1 ->
  components this !! toId = Some c2 ->
  Get (inst_pins c1) fromPin = Some p1 ->
  Get (inst_pins c2) toPin = Some p2 ->
  exists this' path dot1 dot2,
    connect fromId fromPin toId toPin this = Normal this' /\
    childNodes (activeLayer this') =
      path :: childNodes (activeLayer this) ++ [dot1; dot2] /\
    nodeName path = "path" /\ nodeName dot1 = "circle" /\ nodeName dot2 = "circle".
Proof.
  intros H1 H2 G1 G2.
  rewrite (connect_truthy _ _ _ _ _ _ _ _ _ H1 H2 G1 G2).
  do 4 eexists. split; [reflexivity|]. simpl. split; [reflexivity|].
  repeat split; reflexivity.
Qed.

Lemma connect_emits_witness :
  exists this' path dot1 dot2,
    connect "r1" "right" "r2" "left" two_resistors = Normal this' /\
    childNodes (activeLayer this') =
      path :: childNodes (activeLayer two_resistors) ++ [dot1; dot2] /\
    nodeName path = "path" /\ nodeName dot1 = "circle" /\ nodeName dot2 = "circle".
Proof.
  apply (connect_emits two_resistors "r1" "right" "r2" "left"
           (placed Host.Math_cos Host.Math_sin "resistor" "r1" (at_ (-100) 0))
           (placed Host.Math_cos Host.Math_sin "resistor" "r2" (at_ 100 0))
           (Own {| pin_x := (-70)%float; pin_y := 0%float |})
           (Own {| pin_x := 70%float; pin_y := 0%float |}));
    vm_compute; reflexivity.
Defined.

(** C10: whatever its arguments, [connect] returns with the registry it
    found: the same ids, bound to the same instances. *)
Theorem connect_registry_unchanged
    (fromId fromPin toId toPin : string) (this : TechDrawEngine) :
  exists this',
    connect fromId fromPin toId toPin this = Normal this' /\
    components this' = components this.
Proof.
  destruct (connect_Normal fromId fromPin toId toPin this) as (this' & H & Hc & _).
  eauto.
Qed.

(** C5, where it holds: an id that is not registered, or a pin name that
    is neither a pin of the instance nor a property of [Object.prototype],
    leaves the layer as it was; and no call throws. *)
Lemma connect_unresolved_draws_nothing
    (fromId fromPin toId toPin : string) (this : TechDrawEngine) :
  (components this !! fromId = None \/
   components this !! toId = None \/
   (exists c1, components this !! fromId = Some c1 /\
               inst_pins c1 !! fromPin = None /\ fromPin ∉ Object_prototype_keys) \/
   (exists c2, components this !! toId = Some c2 /\
               inst_pins c2 !! toPin = None /\ toPin ∉ Object_prototype_keys)) ->
  exists this',
    connect fromId fromPin toId toPin this = Normal this' /\
    activeLayer this' = activeLayer this.
Proof.
  intros H.
  destruct (connect_unresolved fromId fromPin toId toPin this) as [msg Hc].
  - destruct H as [H|[H|[(c & H & G)|(c & H & G)]]]; auto.
    + right; right; left. exists c. split; [done|]. by apply Get_None.
    + right; right; right. exists c. split; [done|]. by apply Get_None.
  - rewrite Hc. eauto.
Qed.

(** A pin name that the instance does not have but [Object.prototype]
    does is looked up with a truthy result: the call draws. *)
Lemma connect_inherited_pin (fromId fromPin toId toPin : string) (this : TechDrawEngine)
    (c1 c2 : ComponentInstance) (p2 : Member) :
  components this !! fromId = Some c1 ->
  components this !! toId = Some c2 ->
  inst_pins c1 !! fromPin = None ->
  fromPin ∈ Object_prototype_keys ->
  Get (inst_pins c2) toPin = Some p2 ->
  exists this',
    connect fromId fromPin toId toPin this = Normal this' /\
    length (childNodes (activeLayer this')) = length (childNodes (activeLayer this)) + 3.
Proof.
  intros H1 H2 Hown Hproto G2.
  assert (G1 : Get (inst_pins c1) fromPin = Some (Inherited fromPin)).
  { unfold Get. rewrite Hown. by rewrite bool_decide_eq_true_2. }
  rewrite (connect_truthy _ _ _ _ _ _ _ _ _ H1 H2 G1 G2). eexists. split; [reflexivity|].
  simpl. rewrite length_app. simpl. lia.
Qed.

(** C5, where it fails: ["constructor"] is not a pin of a resistor, yet
    [pins["constructor"]] finds [Object.prototype.constructor]; the guard
    lets the call through and three primitives are drawn, with
    [undefined] and [NaN] for coordinates. *)
Theorem connect_inherited_pin_draws :
  exists c1 this',
    components two_resistors !! "r1" = Some c1 /\
    inst_pins c1 !! "constructor" = None /\
    connect "r1" "constructor" "r2" "left" two_resistors = Normal this' /\
    childNodes (activeLayer this') =
      ElementNode "path"
        [("d", [Lit "M "; Lit "undefined"; Lit " "; Lit "undefined"; Lit " ";
                Lit "L "; Lit "undefined"; Lit " "; Dec nan;
                Lit " L "; Dec 70; Lit " "; Dec nan;
                Lit " L "; Dec 70; Lit " "; Dec 0]);
         ("class", [Lit "stroke-slate-700 stroke-[2] fill-none"])] []
      :: childNodes (activeLayer two_resistors)
      ++ [ ElementNode "circle"
             [("cx", [Lit "undefined"]); ("cy", [Lit "undefined"]);
              ("r", [Dec 3]); ("class", [Lit "fill-slate-800"])] [];
           ElementNode "circle"
             [("cx", [Dec 70]); ("cy", [Dec 0]);
              ("r", [Dec 3]); ("class", [Lit "fill-slate-800"])] [] ].
Proof.
  exists (placed Host.Math_cos Host.Math_sin "resistor" "r1" (at_ (-100) 0)).
  eexists. split; [vm_compute; reflexivity|]. split; [vm_compute; reflexivity|].
  split; [vm_compute; reflexivity|]. vm_compute. reflexivity.
Qed.

(** ** Reset *)

(** The loop ends with a layer that has no child and is otherwise the
    element it started from. *)
Lemma remove_children_spec (layer : Element) :
  remove_children layer = setChildren layer [].
Proof.
  funelim (remove_children layer).
  - rewrite H. reflexivity.
  - unfold firstChild in e. destruct layer as [t a [|c l]]; [reflexivity|discriminate].
Qed.

(** C7: [reset] returns with an empty registry and a root group without
    children; the root group keeps its tag and attributes, and the host
    document around it (its ancestors and their other children) is the
    one before the call, so that the exported tree is the host's
    decoration around an empty group. *)
Theorem reset_clears (this : TechDrawEngine) :
  exists this',
    reset this = Normal this' /\
    components this' = ∅ /\
    childNodes (activeLayer this') = [] /\
    tagName (activeLayer this') = tagName (activeLayer this) /\
    attributes (activeLayer this') = attributes (activeLayer this) /\
    svg this' = svg this /\
    getExportSVG this' =
      plug (svg this)
           (ElementNode (tagName (activeLayer this)) (attributes (activeLayer this)) []).
Proof.
  unfold reset. rewrite remove_children_spec. eexists. split; [reflexivity|].
  repeat split.
Qed.

(** ** Unknown types *)

(** C9: a type that [drawSymbol] has no case for gets no geometry and no
    pin: [drawSymbol] returns the group as it received it, with an empty
    record; [add] returns normally, registers an instance with an empty
    pin set and appends a group that holds nothing but the label text,
    and nothing at all when the config has no label. *)
Theorem add_unknown_type (Math_cos Math_sin : float -> float)
    (type id : string) (config : ComponentConfig) (this : TechDrawEngine) :
  type ∉ symbol_types ->
  (forall g, drawSymbol type g = (g, [])) /\
  exists this' c (g : Element),
    add Math_cos Math_sin type id config this = Normal this' /\
    components this' !! id = Some c /\
    inst_type c = type /\
    inst_pins c = ∅ /\
    childNodes (activeLayer this') = childNodes (activeLayer this) ++ [node g] /\
    Forall (fun n => nodeName n = "text") (childNodes g) /\
    (cfg_label config = None -> childNodes g = []).
Proof.
  intros Hno. split; [intros g; by apply drawSymbol_default|].
  destruct (add_Normal Math_cos Math_sin type id config this) as (g & _ & Hg & Hadd).
  rewrite Hadd. do 3 eexists. split; [reflexivity|]. simpl.
  split; [apply lookup_insert_eq|]. split; [reflexivity|]. split; [|split].
  - simpl. unfold pinOffsets. rewrite drawSymbol_default by done. simpl.
    apply fmap_empty.
  - reflexivity.
  - exact (Hg Hno).
Qed.

Lemma add_unknown_type_witness :
  ("arduino_uno" ∉ symbol_types) /\
  (forall g, drawSymbol "arduino_uno" g = (g, [])) /\
  exists this' c (g : Element),
    add Host.Math_cos Host.Math_sin "arduino_uno" "u1" (at_ 0 0) blank = Normal this' /\
    components this' !! "u1" = Some c /\
    inst_type c = "arduino_uno" /\
    inst_pins c = ∅ /\
    childNodes (activeLayer this') = childNodes (activeLayer blank) ++ [node g] /\
    Forall (fun n => nodeName n = "text") (childNodes g) /\
    (cfg_label (at_ 0 0) = None -> childNodes g = []).
Proof.
  assert (H : "arduino_uno" ∉ symbol_types) by (apply (bool_decide_unpack _); vm_compute; exact I).
  split; [exact H|].
  exact (add_unknown_type Host.Math_cos Host.Math_sin "arduino_uno" "u1" (at_ 0 0) blank H).
Defined.

(** The tags of [ComponentType] are those of the symbols and five
    composite device tags, which are such types. *)
Lemma ComponentType_tags :
  (list_to_set ComponentType : gset string) =
    list_to_set symbol_types
    ∪ list_to_set ["arduino_uno"; "stepper_motor"; "driver_stepper"; "antenna"; "ic_555"].
Proof. vm_compute. reflexivity. Qed.

Lemma composite_tags_unknown :
  Forall (fun type => type ∉ symbol_types)
         ["arduino_uno"; "stepper_motor"; "driver_stepper"; "antenna"; "ic_555"].
Proof. apply (bool_decide_unpack _). vm_compute. exact I. Qed.

(** ** Adding an id again *)

(** C6, as the code has it: a second [add] under an id that is registered
    puts the new instance (type, pose and pins of the new call) in the
    place of the old one and leaves the other entries alone; the layer
    keeps every child it had, the group of the earlier placement among
    them, and gets the new group at its end. *)
Theorem add_again_replaces_entry (Math_cos Math_sin : float -> float)
    (type id : string) (config : ComponentConfig) (this : TechDrawEngine)
    (old : ComponentInstance) :
  components this !! id = Some old ->
  exists this' (g : Element),
    add Math_cos Math_sin type id config this = Normal this' /\
    components this' !! id = Some (placed Math_cos Math_sin type id config) /\
    (forall id', id' ≠ id -> components this' !! id' = components this !! id') /\
    childNodes (activeLayer this') = childNodes (activeLayer this) ++ [node g].
Proof.
  intros _.
  destruct (add_Normal Math_cos Math_sin type id config this) as (g & _ & _ & Hadd).
  rewrite Hadd. do 2 eexists. split; [reflexivity|]. simpl.
  split; [apply lookup_insert_eq|]. split; [|reflexivity].
  intros id' Hne. by apply lookup_insert_ne.
Qed.

Lemma add_again_replaces_entry_witness :
  exists this' (g : Element),
    add Host.Math_cos Host.Math_sin "resistor" "r1" (at_ 100 0) one_resistor = Normal this' /\
    components this' !! "r1"
      = Some (placed Host.Math_cos Host.Math_sin "resistor" "r1" (at_ 100 0)) /\
    (forall id', id' ≠ "r1" -> components this' !! id' = components one_resistor !! id') /\
    childNodes (activeLayer this') = childNodes (activeLayer one_resistor) ++ [node g].
Proof.
  apply (add_again_replaces_entry Host.Math_cos Host.Math_sin "resistor" "r1" (at_ 100 0)
           one_resistor (placed Host.Math_cos Host.Math_sin "resistor" "r1" (at_ 0 0))).
  vm_compute. reflexivity.
Defined.

(** C6, as the claim has it, fails: after [add('resistor','r1',{x:0,y:0})]
    and [add('resistor','r1',{x:100,y:0})] the group drawn by the first
    call is still a child of the layer, next to the new one. *)
Lemma add_again_keeps_geometry :
  exists this1 this2 old,
    add Host.Math_cos Host.Math_sin "resistor" "r1" (at_ 0 0) blank = Normal this1 /\
    childNodes (activeLayer this1) = [old] /\
    add Host.Math_cos Host.Math_sin "resistor" "r1" (at_ 100 0) this1 = Normal this2 /\
    old ∈ childNodes (activeLayer this2) /\
    length (childNodes (activeLayer this2)) = 2.
Proof.
  do 3 eexists. split; [vm_compute; reflexivity|]. split; [vm_compute; reflexivity|].
  split; [vm_compute; reflexivity|]. split; [|vm_compute; reflexivity].
  vm_compute. constructor.
Qed.

(** ** The pin-name invariant *)

Lemma placed_dom (Math_cos Math_sin : float -> float)
    (type id : string) (config : ComponentConfig) :
  dom (inst_pins (placed Math_cos Math_sin type id config))
  = list_to_set (pinOffsets type).*1.
Proof. simpl. by rewrite dom_fmap_L, dom_list_to_map_L. Qed.

Lemma add_pin_names (Math_cos Math_sin : float -> float)
    (type id : string) (config : ComponentConfig) (this : TechDrawEngine) :
  exists this' c,
    add Math_cos Math_sin type id config this = Normal this' /\
    components this' !! id = Some c /\
    dom (inst_pins c) = list_to_set (pinOffsets type).*1.
Proof.
  destruct (add_Normal Math_cos Math_sin type id config this) as (g & _ & _ & ->).
  do 2 eexists. split; [reflexivity|]. split; [apply lookup_insert_eq|].
  apply placed_dom.
Qed.

Section Invariant.

Variables Math_cos Math_sin : float -> float.

Lemma call_pin_names_ok (c : Call) (this this' : TechDrawEngine) :
  pin_names_ok this ->
  call Math_cos Math_sin c this = Normal this' ->
  pin_names_ok this'.
Proof.
  intros Hinv Hcall. destruct c as [type id config|fromId fromPin toId toPin|]; simpl in Hcall.
  - destruct (add_Normal Math_cos Math_sin type id config this) as (g & _ & _ & Hadd).
    rewrite Hadd in Hcall. injection Hcall as <-.
    intros id' c. simpl. destruct (decide (id = id')) as [<-|Hne].
    + rewrite lookup_insert_eq. intros [= <-]. apply placed_dom.
    + rewrite lookup_insert_ne by done. apply Hinv.
  - destruct (connect_Normal fromId fromPin toId toPin this) as (this1 & H1 & Hc & _).
    rewrite H1 in Hcall. injection Hcall as <-.
    intros id' c. rewrite Hc. apply Hinv.
  - unfold reset in Hcall. injection Hcall as <-.
    intros id' c. simpl. by rewrite lookup_empty.
Qed.

Lemma run_pin_names_ok (cs : list Call) (this this' : TechDrawEngine) :
  pin_names_ok this ->
  run Math_cos Math_sin cs this = Normal this' ->
  pin_names_ok this'.
Proof.
  revert this. induction cs as [|c cs IH]; intros this Hinv Hrun; simpl in Hrun.
  - by injection Hrun as <-.
  - destruct (call Math_cos Math_sin c this) as [this1|e] eqn:Hcall; [|discriminate].
    simpl in Hrun. eapply IH; [|exact Hrun]. by eapply call_pin_names_ok.
Qed.

End Invariant.

(** C3: for every type of the table of section 4.1, the instance that
    [add] registers has exactly the documented pin names; and in every
    state that a sequence of calls can reach, the pin names of every
    registered instance are exactly those of the symbol of its type. *)
Theorem pin_name_sets (Math_cos Math_sin : float -> float) :
  Forall (fun entry : string * list string =>
            forall id config this, exists this' c,
              add Math_cos Math_sin entry.1 id config this = Normal this' /\
              components this' !! id = Some c /\
              dom (inst_pins c) = list_to_set entry.2)
         pin_contract
  /\
  (forall this, reachable Math_cos Math_sin this ->
     forall id c, components this !! id = Some c ->
       dom (inst_pins c) = list_to_set (pinOffsets (inst_type c)).*1).
Proof.
  split.
  - unfold pin_contract.
    repeat (constructor;
            [intros id config this; exact (add_pin_names Math_cos Math_sin _ id config this)|]).
    constructor.
  - intros this (svgElement & rootGroup & cs & Hrun).
    eapply run_pin_names_ok; [|exact Hrun].
    intros id c. unfold constructor. simpl. by rewrite lookup_empty.
Qed.

Lemma pin_name_sets_witness :
  (exists this' c,
     add Host.Math_cos Host.Math_sin "opamp" "u1" (at_ 0 0) blank = Normal this' /\
     components this' !! "u1" = Some c /\
     dom (inst_pins c) = list_to_set ["in_inv"; "in_non"; "out"]) /\
  (dom (inst_pins (placed Host.Math_cos Host.Math_sin "resistor" "r1" (at_ (-100) 0)))
   = list_to_set (pinOffsets "resistor").*1).
Proof.
  destruct (pin_name_sets Host.Math_cos Host.Math_sin) as [Htable Hinv]. split.
  - apply (proj1 (Forall_forall _ _) Htable ("opamp", ["in_inv"; "in_non"; "out"])).
    unfold pin_contract. repeat constructor.
  - apply (Hinv two_resistors) with (id := "r1").
    + exists Here, (createElementNS "g"),
        [CallAdd "resistor" "r1" (at_ (-100) 0); CallAdd "resistor" "r2" (at_ 100 0)].
      vm_compute. reflexivity.
    + vm_compute. reflexivity.
Defined.

(** ** Rotation *)

(** [90 * Math.PI / 180] is the double nearest to pi/2; the host's cosine
    and sine there. *)
Lemma Host_cos_90 : Host.Math_cos 0x1.921fb54442d18p+0 = 0x1.1a62633145c07p-54%float.
Proof. vm_compute. reflexivity. Qed.

Lemma Host_sin_90 : Host.Math_sin 0x1.921fb54442d18p+0 = 1%float.
Proof. vm_compute. reflexivity. Qed.

Lemma upright_pin (px py : float) :
  spec_absolute Host.Math_cos Host.Math_sin 0 0 90 (px, py)
  = {| pin_x := (0 + (px * 0x1.1a62633145c07p-54 - py * 1))%float;
       pin_y := (0 + (px * 1 + py * 0x1.1a62633145c07p-54))%float |}.
Proof.
  unfold spec_absolute.
  change (90 * Math_PI / 180)%float with 0x1.921fb54442d18p+0%float.
  rewrite Host_cos_90, Host_sin_90. reflexivity.
Qed.

Lemma upright_pins :
  inst_pins (placed Host.Math_cos Host.Math_sin "resistor" "r1" upright) !! "left"
  = Some {| pin_x := (-0x1.08bc3cfe31647p-49)%float; pin_y := (-30)%float |} /\
  inst_pins (placed Host.Math_cos Host.Math_sin "resistor" "r1" upright) !! "right"
  = Some {| pin_x := 0x1.08bc3cfe31647p-49%float; pin_y := 30%float |}.
Proof.
  unfold placed, upright, inst_pins, cfg_x, cfg_y, cfg_rotate, default.
  rewrite !lookup_fmap.
  replace ((list_to_map (pinOffsets "resistor") : gmap string (float * float)) !! "left")
    with (Some ((-30)%float, 0%float)) by (vm_compute; reflexivity).
  replace ((list_to_map (pinOffsets "resistor") : gmap string (float * float)) !! "right")
    with (Some (30%float, 0%float)) by (vm_compute; reflexivity).
  unfold fmap, option_fmap, option_map. rewrite !upright_pin. split; reflexivity.
Qed.

(** C2, as the claim has it, fails in binary64: the cosine of the double
    nearest to pi/2 is not zero, and neither are the x coordinates of the
    two pins. *)
Lemma rotation_90_inexact :
  exists this' c left right,
    add Host.Math_cos Host.Math_sin "resistor" "r1" upright blank = Normal this' /\
    components this' !! "r1" = Some c /\
    inst_pins c !! "left" = Some left /\
    inst_pins c !! "right" = Some right /\
    left ≠ {| pin_x := 0%float; pin_y := (-30)%float |} /\
    right ≠ {| pin_x := 0%float; pin_y := 30%float |} /\
    PrimFloat.eqb (pin_x left) 0 = false /\
    PrimFloat.eqb (pin_x right) 0 = false.
Proof.
  destruct (add_Normal Host.Math_cos Host.Math_sin "resistor" "r1" upright blank)
    as (g & _ & _ & ->).
  destruct upright_pins as [Hl Hr].
  do 4 eexists. split; [reflexivity|]. split; [apply lookup_insert_eq|].
  split; [exact Hl|]. split; [exact Hr|].
  split; [|split; [|split; reflexivity]].
  - intros H. apply (f_equal (fun p => PrimFloat.eqb (pin_x p) 0)) in H. discriminate.
  - intros H. apply (f_equal (fun p => PrimFloat.eqb (pin_x p) 0)) in H. discriminate.
Qed.

(** C2, as the code has it: [add] registers, for every pin of the symbol,
    the position [(x + (px cos θ - py sin θ), y + (px sin θ + py cos θ))]
    with [θ = rotation * Math.PI / 180], [rotation] being 0 when the
    config has none, all of it in binary64 arithmetic.  For the resistor
    at the origin with rotation 90 the y coordinates are -30 and 30, and
    the x coordinates are -30 cos θ and 30 cos θ: not 0, but within 2^-48
    of it on a host that rounds to nearest. *)
Theorem add_pin_positions :
  (forall (Math_cos Math_sin : float -> float) type id config this,
     exists this' c,
       add Math_cos Math_sin type id config this = Normal this' /\
       components this' !! id = Some c /\
       inst_pins c =
         spec_absolute Math_cos Math_sin (cfg_x config) (cfg_y config)
                       (default 0%float (cfg_rotate config))
           <$> (list_to_map (pinOffsets type) : gmap string (float * float)))
  /\
  (exists this' c (cosθ : float),
     add Host.Math_cos Host.Math_sin "resistor" "r1" upright blank = Normal this' /\
     components this' !! "r1" = Some c /\
     Host.Math_cos (90 * Math_PI / 180) = cosθ /\
     inst_pins c !! "left" = Some {| pin_x := (-30 * cosθ)%float; pin_y := (-30)%float |} /\
     inst_pins c !! "right" = Some {| pin_x := (30 * cosθ)%float; pin_y := 30%float |} /\
     cosθ = 0x1.1a62633145c07p-54%float /\
     PrimFloat.ltb (abs (30 * cosθ)) 0x1p-48 = true).
Proof.
  split.
  - intros Math_cos Math_sin type id config this.
    destruct (add_Normal Math_cos Math_sin type id config this) as (g & _ & _ & ->).
    do 2 eexists. split; [reflexivity|]. split; [apply lookup_insert_eq|]. reflexivity.
  - destruct (add_Normal Host.Math_cos Host.Math_sin "resistor" "r1" upright blank)
      as (g & _ & _ & ->).
    destruct upright_pins as [Hl Hr].
    do 2 eexists. exists 0x1.1a62633145c07p-54%float.
    split; [reflexivity|]. split; [apply lookup_insert_eq|].
    split; [exact Host_cos_90|]. split; [exact Hl|]. split; [exact Hr|].
    split; reflexivity.
Qed.

(** ** End to end *)

(** Without rotation, on a host whose cosine and sine are exact at zero
    (as ECMAScript requires), a pin sits at its offset from the centre. *)
Lemma unrotated_pin (Math_cos Math_sin : float -> float) (x y px py : float) :
  Math_cos 0%float = 1%float ->
  Math_sin 0%float = 0%float ->
  spec_absolute Math_cos Math_sin x y 0 (px, py)
  = {| pin_x := (x + (px * 1 - py * 0))%float; pin_y := (y + (px * 0 + py * 1))%float |}.
Proof.
  intros Hcos Hsin. unfold spec_absolute.
  change (0 * Math_PI / 180)%float with 0%float.
  rewrite Hcos, Hsin. reflexivity.
Qed.

(** C8, as the claim has it, fails: in the sample circuit the two pins are
    (-70, 0) and (70, 0), and [deltaX] is 140, not 170. *)
Lemma circuit_deltaX_not_170 :
  exists c1 c2 p1 p2,
    components two_resistors !! "r1" = Some c1 /\
    components two_resistors !! "r2" = Some c2 /\
    inst_pins c1 !! "right" = Some p1 /\
    inst_pins c2 !! "left" = Some p2 /\
    Math_abs (minus (Num (pin_x p1)) (Num (pin_x p2))) = 140%float /\
    Math_abs (minus (Num (pin_x p1)) (Num (pin_x p2))) ≠ 170%float.
Proof.
  exists (placed Host.Math_cos Host.Math_sin "resistor" "r1" (at_ (-100) 0)),
    (placed Host.Math_cos Host.Math_sin "resistor" "r2" (at_ 100 0)),
    {| pin_x := (-70)%float; pin_y := 0%float |},
    {| pin_x := 70%float; pin_y := 0%float |}.
  split; [vm_compute; reflexivity|]. split; [vm_compute; reflexivity|].
  split; [vm_compute; reflexivity|]. split; [vm_compute; reflexivity|].
  split; [reflexivity|].
  intros H. apply (f_equal (fun d => PrimFloat.eqb d 170)) in H. discriminate.
Qed.

(** C8, as the code has it: from a fresh engine,
    [add('resistor','r1',{x:-100,y:0})], [add('resistor','r2',{x:100,y:0})]
    put the pins [r1.right] at (-70, 0) and [r2.left] at (70, 0); then
    [deltaX = 140 > deltaY = 0], and
    [connect('r1','right','r2','left')] takes the horizontal branch: its
    path runs from (-70, 0) through (0, 0) to (70, 0), on the line y = 0. *)
Theorem circuit_end_to_end (Math_cos Math_sin : float -> float)
    (svgElement : Context) (rootGroup : Element) :
  Math_cos 0%float = 1%float ->
  Math_sin 0%float = 0%float ->
  exists this c1 c2 p1 p2 this' d rest,
    run Math_cos Math_sin
        [CallAdd "resistor" "r1" (at_ (-100) 0); CallAdd "resistor" "r2" (at_ 100 0)]
        (constructor svgElement rootGroup) = Normal this /\
    components this !! "r1" = Some c1 /\
    components this !! "r2" = Some c2 /\
    inst_pins c1 !! "right" = Some p1 /\
    inst_pins c2 !! "left" = Some p2 /\
    p1 = {| pin_x := (-70)%float; pin_y := 0%float |} /\
    p2 = {| pin_x := 70%float; pin_y := 0%float |} /\
    Math_abs (minus (Num (pin_x p1)) (Num (pin_x p2))) = 140%float /\
    Math_abs (minus (Num (pin_y p1)) (Num (pin_y p2))) = 0%float /\
    gt 140 0 = true /\
    connect "r1" "right" "r2" "left" this = Normal this' /\
    childNodes (activeLayer this') =
      ElementNode "path"
        [("d", d); ("class", [Lit "stroke-slate-700 stroke-[2] fill-none"])] [] :: rest /\
    d = [Lit "M "; Dec (-70); Lit " "; Dec 0; Lit " ";
         Lit "L "; Dec 0; Lit " "; Dec 0; Lit " L "; Dec 0; Lit " "; Dec 0;
         Lit " L "; Dec 70; Lit " "; Dec 0] /\
    Svg.vertices d = Some [((-70)%float, 0%float); (0%float, 0%float);
                           (0%float, 0%float); (70%float, 0%float)].
Proof.
  intros Hcos Hsin.
  set (this0 := constructor svgElement rootGroup).
  destruct (add_Normal Math_cos Math_sin "resistor" "r1" (at_ (-100) 0) this0)
    as (g1 & _ & _ & E1).
  set (this1 := {| svg := svg this0; activeLayer := appendChild (activeLayer this0) g1;
                   components := _; console := console this0 |}) in E1.
  destruct (add_Normal Math_cos Math_sin "resistor" "r2" (at_ 100 0) this1)
    as (g2 & _ & _ & E2).
  set (this2 := {| svg := svg this1; activeLayer := appendChild (activeLayer this1) g2;
                   components := _; console := console this1 |}) in E2.
  set (c1 := placed Math_cos Math_sin "resistor" "r1" (at_ (-100) 0)).
  set (c2 := placed Math_cos Math_sin "resistor" "r2" (at_ 100 0)).
  set (p1 := {| pin_x := (-70)%float; pin_y := 0%float |}).
  set (p2 := {| pin_x := 70%float; pin_y := 0%float |}).
  assert (Hc1 : components this2 !! "r1" = Some c1).
  { unfold this2, this1. simpl. rewrite lookup_insert_ne by done. apply lookup_insert_eq. }
  assert (Hc2 : components this2 !! "r2" = Some c2).
  { unfold this2. simpl. apply lookup_insert_eq. }
  assert (Hp1 : inst_pins c1 !! "right" = Some p1).
  { unfold c1, placed, inst_pins, at_, cfg_x, cfg_y, cfg_rotate, default.
    rewrite lookup_fmap.
    replace ((list_to_map (pinOffsets "resistor") : gmap string (float * float)) !! "right")
      with (Some (30%float, 0%float)) by (vm_compute; reflexivity).
    unfold fmap, option_fmap, option_map. by rewrite unrotated_pin. }
  assert (Hp2 : inst_pins c2 !! "left" = Some p2).
  { unfold c2, placed, inst_pins, at_, cfg_x, cfg_y, cfg_rotate, default.
    rewrite lookup_fmap.
    replace ((list_to_map (pinOffsets "resistor") : gmap string (float * float)) !! "left")
      with (Some ((-30)%float, 0%float)) by (vm_compute; reflexivity).
    unfold fmap, option_fmap, option_map. by rewrite unrotated_pin. }
  pose proof (connect_truthy "r1" "right" "r2" "left" this2 c1 c2 (Own p1) (Own p2)
                Hc1 Hc2 (Get_own _ _ _ Hp1) (Get_own _ _ _ Hp2)) as Ht.
  exists this2, c1, c2, p1, p2. do 3 eexists.
  split. { cbn [run call]. rewrite E1. unfold mbind, Completion_bind. rewrite E2. reflexivity. }
  split; [exact Hc1|]. split; [exact Hc2|]. split; [exact Hp1|]. split; [exact Hp2|].
  split; [reflexivity|]. split; [reflexivity|]. split; [reflexivity|].
  split; [reflexivity|]. split; [reflexivity|].
  split; [exact Ht|]. split; [reflexivity|]. split; reflexivity.
Qed.

Lemma Host_cos_0 : Host.Math_cos 0%float = 1%float.
Proof. reflexivity. Qed.

Lemma Host_sin_0 : Host.Math_sin 0%float = 0%float.
Proof. reflexivity. Qed.

Lemma circuit_end_to_end_witness :
  exists this c1 c2 p1 p2 this' d rest,
    run Host.Math_cos Host.Math_sin
        [CallAdd "resistor" "r1" (at_ (-100) 0); CallAdd "resistor" "r2" (at_ 100 0)]
        (constructor Here (createElementNS "g")) = Normal this /\
    components this !! "r1" = Some c1 /\
    components this !! "r2" = Some c2 /\
    inst_pins c1 !! "right" = Some p1 /\
    inst_pins c2 !! "left" = Some p2 /\
    p1 = {| pin_x := (-70)%float; pin_y := 0%float |} /\
    p2 = {| pin_x := 70%float; pin_y := 0%float |} /\
    Math_abs (minus (Num (pin_x p1)) (Num (pin_x p2))) = 140%float /\
    Math_abs (minus (Num (pin_y p1)) (Num (pin_y p2))) = 0%float /\
    gt 140 0 = true /\
    connect "r1" "right" "r2" "left" this = Normal this' /\
    childNodes (activeLayer this') =
      ElementNode "path"
        [("d", d); ("class", [Lit "stroke-slate-700 stroke-[2] fill-none"])] [] :: rest /\
    d = [Lit "M "; Dec (-70); Lit " "; Dec 0; Lit " ";
         Lit "L "; Dec 0; Lit " "; Dec 0; Lit " L "; Dec 0; Lit " "; Dec 0;
         Lit " L "; Dec 70; Lit " "; Dec 0] /\
    Svg.vertices d = Some [((-70)%float, 0%float); (0%float, 0%float);
                           (0%float, 0%float); (70%float, 0%float)].
Proof.
  apply (circuit_end_to_end Host.Math_cos Host.Math_sin Here (createElementNS "g"));
    reflexivity.
Defined.

(** * Further properties of the code *)


(** ** Elements *)







(** ** Symbols *)

Lemma Element_eq (e e' : Element) :
  tagName e = tagName e' -> attributes e = attributes e' ->
  childNodes e = childNodes e' -> e = e'.
Proof. destruct e, e'. simpl. by intros -> -> ->. Qed.

Lemma appendChild_tagName (g : Element) (n : Node) : tagName (appendChild g n) = tagName g.
Proof. reflexivity. Qed.

Lemma appendChild_attributes (g : Element) (n : Node) :
  attributes (appendChild g n) = attributes g.
Proof. reflexivity. Qed.

Lemma appendChild_childNodes (g : Element) (n : Node) :
  childNodes (appendChild g n) = childNodes g ++ [n].
Proof. reflexivity. Qed.

(** [drawSymbol] appends the primitives of the symbol to the group. *)
Lemma drawSymbol_geometry (type : string) (g : Element) :
  (drawSymbol type g).1
  = {| tagName := tagName g; attributes := attributes g;
       childNodes := childNodes g ++ geometry type |}.
Proof.
  unfold geometry, drawSymbol.
  repeat match goal with
         | |- context [String.eqb type ?s] =>
             destruct (String.eqb_spec type s) as [->|?]
         end;
    cbv beta zeta iota delta [fst]; apply Element_eq;
    rewrite ?appendChild_tagName, ?appendChild_attributes, ?appendChild_childNodes;
    try reflexivity;
    first [ symmetry; apply app_nil_r
          | rewrite <- ?app_assoc; f_equal; vm_compute; reflexivity ].
Qed.

(** X2: [drawSymbol] only appends: the group keeps its tag, its attributes
    and the children it had, in place, and gets the primitives of the
    symbol after them; neither these primitives nor the pin offsets that
    are returned depend on the group. *)
Theorem drawSymbol_appends (type : string) (g : Element) :
  drawSymbol type g
  = ({| tagName := tagName g; attributes := attributes g;
        childNodes := childNodes g ++ geometry type |},
     pinOffsets type).
Proof.
  pose proof (drawSymbol_geometry type g) as Hg.
  pose proof (drawSymbol_pins type g) as Hp.
  destruct (drawSymbol type g) as [g' pins]. simpl in Hg, Hp.
  by rewrite Hg, Hp.
Qed.


(** ** What [add] draws *)

(** The effect of [add], in full. *)
Lemma add_effect (Math_cos Math_sin : float -> float)
    (type id : string) (config : ComponentConfig) (this : TechDrawEngine) :
  add Math_cos Math_sin type id config this
  = Normal {| svg := svg this;
              activeLayer := appendChild (activeLayer this)
                                         (node (drawn_group type id config));
              components :=
                <[id := placed Math_cos Math_sin type id config]> (components this);
              console := console this |}.
Proof.
  unfold add.
  match goal with
  | |- context [createEl "g" ?l] =>
      change (createEl "g" l)
        with {| tagName := "g";
                attributes := (fun kv => (kv.1, String_ kv.2)) <$> l;
                childNodes := [] |}
  end.
  match goal with |- context [drawSymbol type ?g] => set (g0 := g) end.
  pose proof (drawSymbol_pins type g0) as Hpins.
  pose proof (drawSymbol_geometry type g0) as Hg.
  destruct (drawSymbol type g0) as [g pins]. simpl in Hpins, Hg. subst pins g.
  f_equal. f_equal.
  - f_equal. f_equal. unfold drawn_group, label_nodes, truthy_string.
    destruct (cfg_label config) as [label|]; simpl default.
    + destruct (String.eqb label ""); simpl negb; cbv iota.
      * by rewrite app_nil_r.
      * apply Element_eq; reflexivity.
    + simpl. by rewrite app_nil_r.
  - unfold placed. f_equal. f_equal.
    apply (fold_left_assign (spec_absolute Math_cos Math_sin _ _ _));
      [|apply pinOffsets_NoDup].
    intros m [key [px py]]. reflexivity.
Qed.

(** X3: [add] returns normally and appends one group to the layer, after
    everything that is drawn: a [g] element with the class of a symbol,
    the transform [translate(x,y) rotate(r)] and the id as [data-id],
    holding the primitives of the symbol and then the label; the label is
    one text element turned back by [-r], and an empty label is no label.
    The registry gets the entry of the id; the host's document, the root
    group's tag and attributes and the console stay as they were. *)
Theorem add_draws (Math_cos Math_sin : float -> float)
    (type id : string) (config : ComponentConfig) (this : TechDrawEngine) :
  exists this',
    add Math_cos Math_sin type id config this = Normal this' /\
    childNodes (activeLayer this')
    = childNodes (activeLayer this) ++ [node (drawn_group type id config)] /\
    tagName (activeLayer this') = tagName (activeLayer this) /\
    attributes (activeLayer this') = attributes (activeLayer this) /\
    components this'
    = <[id := placed Math_cos Math_sin type id config]> (components this) /\
    svg this' = svg this /\
    console this' = console this.
Proof.
  rewrite add_effect. eexists. split; [reflexivity|].
  cbn [activeLayer components svg console].
  rewrite appendChild_childNodes, appendChild_tagName, appendChild_attributes.
  by repeat split.
Qed.


(** ** Sequences of calls *)

(** The three ways [connect] ends. *)
Lemma connect_cases (fromId fromPin toId toPin : string) (this : TechDrawEngine) :
  (exists c1 c2 p1 p2,
     components this !! fromId = Some c1 /\ components this !! toId = Some c2 /\
     Get (inst_pins c1) fromPin = Some p1 /\ Get (inst_pins c2) toPin = Some p2) \/
  ((components this !! fromId = None \/ components this !! toId = None) /\
   connect fromId fromPin toId toPin this
   = Normal (console_warn [Lit "Connection failed: invalid IDs "; Lit fromId;
                           Lit " -> "; Lit toId] this)) \/
  ((exists c1 c2,
      components this !! fromId = Some c1 /\ components this !! toId = Some c2 /\
      (Get (inst_pins c1) fromPin = None \/ Get (inst_pins c2) toPin = None)) /\
   connect fromId fromPin toId toPin this
   = Normal (console_warn [Lit "Connection failed: invalid pins "; Lit fromPin;
                           Lit " -> "; Lit toPin] this)).
Proof.
  unfold connect.
  destruct (components this !! fromId) as [c1|] eqn:H1;
    [destruct (components this !! toId) as [c2|] eqn:H2|]; simpl.
  - destruct (Get (inst_pins c1) fromPin) as [p1|] eqn:G1;
      [destruct (Get (inst_pins c2) toPin) as [p2|] eqn:G2|]; simpl.
    + left. by exists c1, c2, p1, p2.
    + right; right. split; [|done]. exists c1, c2. auto.
    + right; right. split; [|done]. exists c1, c2. auto.
  - right; left. auto.
  - right; left. auto.
Qed.

Section Calls.

Variables Math_cos Math_sin : float -> float.

(** Every call returns normally, with one of the four effects. *)
Lemma call_effect (c : Call) (this : TechDrawEngine) :
  exists this', call Math_cos Math_sin c this = Normal this' /\ effect this this'.
Proof.
  destruct c as [type id config|fromId fromPin toId toPin|]; simpl.
  - rewrite add_effect. eexists. split; [reflexivity|].
    by apply effect_place.
  - destruct (connect_cases fromId fromPin toId toPin this)
      as [(c1 & c2 & p1 & p2 & H1 & H2 & G1 & G2)|[[_ ->]|[_ ->]]].
    + rewrite (connect_truthy _ _ _ _ _ _ _ _ _ H1 H2 G1 G2).
      eexists. split; [reflexivity|]. by apply effect_wire.
    + eexists. split; [reflexivity|]. apply effect_warn.
    + eexists. split; [reflexivity|]. apply effect_warn.
  - unfold reset. rewrite remove_children_spec. eexists. split; [reflexivity|].
    apply effect_clear.
Qed.

(** An invariant of the four effects holds along every sequence. *)
Lemma run_invariant (P : TechDrawEngine -> TechDrawEngine -> Prop) :
  (forall this, P this this) ->
  (forall a b c, P a b -> effect b c -> P a c) ->
  forall cs this this',
    run Math_cos Math_sin cs this = Normal this' -> P this this'.
Proof.
  intros Hrefl Hstep cs this. 
  assert (Hgen : forall cs mid this', P this mid ->
                   run Math_cos Math_sin cs mid = Normal this' -> P this this').
  { clear cs. induction cs as [|c cs IH]; intros mid this' Hmid Hrun; simpl in Hrun.
    - by injection Hrun as <-.
    - destruct (call_effect c mid) as (next & Hcall & Heff).
      rewrite Hcall in Hrun. simpl in Hrun. eapply IH; [|exact Hrun]. eauto. }
  intros this'. apply Hgen, Hrefl.
Qed.

(** X4: no sequence of calls throws: every one of them runs to its end. *)
Theorem run_completes (cs : list Call) (this : TechDrawEngine) :
  exists this', run Math_cos Math_sin cs this = Normal this'.
Proof.
  revert this. induction cs as [|c cs IH]; intros this; simpl; [eauto|].
  destruct (call_effect c this) as (next & -> & _). simpl. apply IH.
Qed.

(** X5: whatever is called, the host's document around the root group and
    the root group's own tag and attributes stay as they were: the
    exported tree is the host's, with the layer's children in the root
    group. *)
Theorem host_untouched (cs : list Call) (this this' : TechDrawEngine) :
  run Math_cos Math_sin cs this = Normal this' ->
  svg this' = svg this /\
  tagName (activeLayer this') = tagName (activeLayer this) /\
  attributes (activeLayer this') = attributes (activeLayer this) /\
  getExportSVG this'
  = plug (svg this)
         (ElementNode (tagName (activeLayer this)) (attributes (activeLayer this))
                      (childNodes (activeLayer this'))).
Proof.
  intros Hrun.
  assert (H : svg this' = svg this /\
              tagName (activeLayer this') = tagName (activeLayer this) /\
              attributes (activeLayer this') = attributes (activeLayer this)).
  { revert Hrun. apply (run_invariant (fun a b =>
      svg b = svg a /\ tagName (activeLayer b) = tagName (activeLayer a) /\
      attributes (activeLayer b) = attributes (activeLayer a))); [done|].
    intros a b c (Hs & Ht & Ha) Heff. destruct Heff; simpl; auto. }
  destruct H as (Hs & Ht & Ha). repeat split; try done.
  unfold getExportSVG, node. by rewrite Hs, Ht, Ha.
Qed.

(** X6: wires stay behind: if the paths of the layer come before all its
    other children, they still do after any sequence of calls. *)
Theorem wires_stay_behind (cs : list Call) (this this' : TechDrawEngine) :
  wires_behind (childNodes (activeLayer this)) ->
  run Math_cos Math_sin cs this = Normal this' ->
  wires_behind (childNodes (activeLayer this')).
Proof.
  intros Hinit Hrun. revert Hinit. revert Hrun.
  apply (run_invariant (fun a b =>
    wires_behind (childNodes (activeLayer a)) -> wires_behind (childNodes (activeLayer b))));
    [done|].
  intros a b c Hab Heff Ha. specialize (Hab Ha) as (ws & rest & Hb & Hws & Hrest).
  destruct Heff as [g id ci Htag _ _|path dot1 dot2 Hp Hd1 Hd2|msg|]; simpl.
  - exists ws, (rest ++ [node g]). rewrite Hb, app_assoc. split; [done|]. split; [done|].
    apply Forall_app. split; [done|]. constructor; [|done]. simpl. by rewrite Htag.
  - exists (path :: ws), (rest ++ [dot1; dot2]). rewrite Hb. split.
    { simpl. by rewrite <- app_assoc. }
    split; [by constructor|]. apply Forall_app. split; [done|].
    repeat constructor; congruence.
  - by exists ws, rest.
  - exists [], []. by repeat split.
Qed.

End Calls.


Lemma host_untouched_witness :
  exists this',
    run Host.Math_cos Host.Math_sin
        [CallConnect "r1" "right" "r2" "left"; CallReset; CallAdd "gnd" "g1" (at_ 0 100)]
        two_resistors = Normal this' /\
    svg this' = svg two_resistors /\
    tagName (activeLayer this') = tagName (activeLayer two_resistors) /\
    attributes (activeLayer this') = attributes (activeLayer two_resistors) /\
    getExportSVG this'
    = plug (svg two_resistors)
           (ElementNode (tagName (activeLayer two_resistors))
                        (attributes (activeLayer two_resistors))
                        (childNodes (activeLayer this'))).
Proof.
  eexists. split; [vm_compute; reflexivity|].
  apply (host_untouched Host.Math_cos Host.Math_sin
           [CallConnect "r1" "right" "r2" "left"; CallReset; CallAdd "gnd" "g1" (at_ 0 100)]
           two_resistors).
  vm_compute. reflexivity.
Defined.

Lemma wires_stay_behind_witness :
  exists this',
    run Host.Math_cos Host.Math_sin
        [CallConnect "r1" "right" "r2" "left"; CallAdd "gnd" "g1" (at_ 0 100);
         CallConnect "r1" "left" "g1" "top"]
        two_resistors = Normal this' /\
    wires_behind (childNodes (activeLayer this')).
Proof.
  eexists. split; [vm_compute; reflexivity|].
  apply (wires_stay_behind Host.Math_cos Host.Math_sin
           [CallConnect "r1" "right" "r2" "left"; CallAdd "gnd" "g1" (at_ 0 100);
            CallConnect "r1" "left" "g1" "top"]
           two_resistors).
  - exists [], (childNodes (activeLayer two_resistors)).
    split; [reflexivity|]. split; [constructor|].
    vm_compute. repeat constructor; discriminate.
  - vm_compute. reflexivity.
Defined.


Section Registry.

Variables Math_cos Math_sin : float -> float.

(** X7: every registered instance is filed under its own id and has its
    group in the layer, after any sequence of calls from a state where
    this holds (a fresh engine is one). *)
Theorem registered_stay_drawn (cs : list Call) (this this' : TechDrawEngine) :
  registered_are_drawn this ->
  run Math_cos Math_sin cs this = Normal this' ->
  registered_are_drawn this'.
Proof.
  intros Hinit Hrun. revert Hinit. revert Hrun.
  apply (run_invariant Math_cos Math_sin (fun a b =>
    registered_are_drawn a -> registered_are_drawn b)); [done|].
  intros a b c Hab Heff Ha. specialize (Hab Ha).
  destruct Heff as [g id ci Htag Hid Hci|path dot1 dot2 _ _ _|msg|]; intros id' c'; simpl.
  - destruct (decide (id = id')) as [<-|Hne].
    + rewrite lookup_insert_eq. intros [= <-]. split; [done|].
      exists (node g). split; [apply elem_of_app; right; constructor|].
      split; [exact Htag|exact Hid].
    + rewrite lookup_insert_ne by done. intros Hc.
      destruct (Hab id' c' Hc) as (Hi & g' & Hin & Hg). split; [done|].
      exists g'. split; [|done]. apply elem_of_app. by left.
  - intros Hc. destruct (Hab id' c' Hc) as (Hi & g' & Hin & Hg). split; [done|].
    exists g'. split; [|done]. right. apply elem_of_app. by left.
  - apply Hab.
  - by rewrite lookup_empty.
Qed.

Lemma call_registered (c : Call) (this this' : TechDrawEngine) :
  call Math_cos Math_sin c this = Normal this' ->
  dom (components this') = registered [c] (dom (components this)).
Proof.
  destruct c as [type id config|fromId fromPin toId toPin|]; simpl.
  - rewrite add_effect. intros [= <-]. simpl. apply dom_insert_L.
  - destruct (connect_Normal fromId fromPin toId toPin this) as (this1 & -> & Hc & _).
    intros [= <-]. by rewrite Hc.
  - unfold reset. intros [= <-]. simpl. apply dom_empty_L.
Qed.

(** X8: the registered ids after a sequence of calls are those added since
    the last [reset] of the sequence, together with, when it has none,
    the ids registered before. *)
Theorem registry_ids (cs : list Call) (this this' : TechDrawEngine) :
  run Math_cos Math_sin cs this = Normal this' ->
  dom (components this') = registered cs (dom (components this)).
Proof.
  revert this. induction cs as [|c cs IH]; intros this Hrun; simpl in Hrun.
  - by injection Hrun as <-.
  - destruct (call Math_cos Math_sin c this) as [next|e] eqn:Hcall; [|discriminate].
    simpl in Hrun. rewrite (IH next Hrun), (call_registered c this next Hcall).
    by destruct c.
Qed.

Lemma call_console (c : Call) (this this' : TechDrawEngine) :
  call Math_cos Math_sin c this = Normal this' ->
  exists warnings,
    console this' = console this ++ warnings /\ length warnings <= connects [c].
Proof.
  destruct c as [type id config|fromId fromPin toId toPin|]; simpl.
  - rewrite add_effect. intros [= <-]. exists []. by rewrite app_nil_r.
  - destruct (connect_cases fromId fromPin toId toPin this)
      as [(c1 & c2 & p1 & p2 & H1 & H2 & G1 & G2)|[[_ ->]|[_ ->]]].
    + rewrite (connect_truthy _ _ _ _ _ _ _ _ _ H1 H2 G1 G2). intros [= <-].
      exists []. simpl. rewrite app_nil_r. split; [done|lia].
    + intros [= <-]. eexists [_]. by split.
    + intros [= <-]. eexists [_]. by split.
  - unfold reset. intros [= <-]. exists []. by rewrite app_nil_r.
Qed.

(** X9: warnings are only ever added to the console, at most one for
    each [connect] of the sequence; [add] and [reset] log nothing. *)
Theorem console_grows (cs : list Call) (this this' : TechDrawEngine) :
  run Math_cos Math_sin cs this = Normal this' ->
  exists warnings,
    console this' = console this ++ warnings /\ length warnings <= connects cs.
Proof.
  revert this. induction cs as [|c cs IH]; intros this Hrun; simpl in Hrun.
  - injection Hrun as <-. exists []. by rewrite app_nil_r.
  - destruct (call Math_cos Math_sin c this) as [next|e] eqn:Hcall; [|discriminate].
    simpl in Hrun. destruct (IH next Hrun) as (ws2 & H2 & L2).
    destruct (call_console c this next Hcall) as (ws1 & H1 & L1).
    exists (ws1 ++ ws2). rewrite H2, H1, app_assoc. split; [done|].
    rewrite length_app. destruct c; simpl in *; lia.
Qed.

End Registry.


Lemma registered_stay_drawn_witness :
  exists this',
    run Host.Math_cos Host.Math_sin
        [CallAdd "resistor" "r1" (at_ (-100) 0); CallAdd "resistor" "r2" (at_ 100 0);
         CallConnect "r1" "right" "r2" "left"; CallAdd "led" "r1" (at_ 0 100)]
        blank = Normal this' /\
    registered_are_drawn this'.
Proof.
  eexists. split; [vm_compute; reflexivity|].
  apply (registered_stay_drawn Host.Math_cos Host.Math_sin
           [CallAdd "resistor" "r1" (at_ (-100) 0); CallAdd "resistor" "r2" (at_ 100 0);
            CallConnect "r1" "right" "r2" "left"; CallAdd "led" "r1" (at_ 0 100)]
           blank).
  - intros id c Hc. simpl in Hc. rewrite lookup_empty in Hc. discriminate.
  - vm_compute. reflexivity.
Defined.

Lemma registry_ids_witness :
  exists this',
    run Host.Math_cos Host.Math_sin
        [CallAdd "resistor" "r3" (at_ 0 0); CallReset; CallAdd "gnd" "g1" (at_ 0 100);
         CallConnect "g1" "top" "r1" "left"]
        two_resistors = Normal this' /\
    dom (components this')
    = registered [CallAdd "resistor" "r3" (at_ 0 0); CallReset; CallAdd "gnd" "g1" (at_ 0 100);
                  CallConnect "g1" "top" "r1" "left"]
                 (dom (components two_resistors)).
Proof.
  eexists. split; [vm_compute; reflexivity|].
  apply (registry_ids Host.Math_cos Host.Math_sin
           [CallAdd "resistor" "r3" (at_ 0 0); CallReset; CallAdd "gnd" "g1" (at_ 0 100);
            CallConnect "g1" "top" "r1" "left"]
           two_resistors).
  vm_compute. reflexivity.
Defined.

Lemma console_grows_witness :
  exists this' warnings,
    run Host.Math_cos Host.Math_sin
        [CallConnect "r1" "right" "r2" "left"; CallConnect "r1" "right" "r9" "left";
         CallReset; CallConnect "r1" "right" "r2" "left"]
        two_resistors = Normal this' /\
    console this' = console two_resistors ++ warnings /\
    length warnings
    <= connects [CallConnect "r1" "right" "r2" "left"; CallConnect "r1" "right" "r9" "left";
                 CallReset; CallConnect "r1" "right" "r2" "left"].
Proof.
  eexists.
  assert (Hrun : run Host.Math_cos Host.Math_sin
        [CallConnect "r1" "right" "r2" "left"; CallConnect "r1" "right" "r9" "left";
         CallReset; CallConnect "r1" "right" "r2" "left"]
        two_resistors = Normal _) by (vm_compute; reflexivity).
  destruct (console_grows Host.Math_cos Host.Math_sin _ _ _ Hrun) as (warnings & Hw & Hl).
  exists warnings. split; [exact Hrun|]. split; [exact Hw|exact Hl].
Defined.


(** ** Wires *)


Lemma route_vertices (p1 p2 : PinPosition) :
  let midX := ((pin_x p1 + pin_x p2) / 2)%float in
  let midY := ((pin_y p1 + pin_y p2) / 2)%float in
  Svg.vertices (route (Num (pin_x p1)) (Num (pin_y p1)) (Num (pin_x p2)) (Num (pin_y p2)))
  = Some (if gt (Math_abs (pin_x p1 - pin_x p2)) (Math_abs (pin_y p1 - pin_y p2))
          then [(pin_x p1, pin_y p1); (midX, pin_y p1); (midX, pin_y p2); (pin_x p2, pin_y p2)]
          else [(pin_x p1, pin_y p1); (pin_x p1, midY); (pin_x p2, midY); (pin_x p2, pin_y p2)]).
Proof.
  intros. unfold route.
  change (gt (Math_abs (minus _ _)) (Math_abs (minus _ _)))
    with (gt (Math_abs (pin_x p1 - pin_x p2)) (Math_abs (pin_y p1 - pin_y p2))).
  destruct (gt _ _); reflexivity.
Qed.

(** X11: the wire between two registered pins is a Manhattan route: every
    segment of its path is horizontal or vertical, the path starts on the
    first pin and ends on the second, and the two circles sit on the two
    pins, in this order. *)
Theorem connect_manhattan (this : TechDrawEngine) (fromId fromPin toId toPin : string)
    (c1 c2 : ComponentInstance) (p1 p2 : PinPosition) :
  components this !! fromId = Some c1 ->
  components this !! toId = Some c2 ->
  inst_pins c1 !! fromPin = Some p1 ->
  inst_pins c2 !! toPin = Some p2 ->
  exists this' path dot1 dot2 d vs,
    connect fromId fromPin toId toPin this = Normal this' /\
    childNodes (activeLayer this') = path :: childNodes (activeLayer this) ++ [dot1; dot2] /\
    getAttribute path "d" = Some d /\
    Svg.vertices d = Some vs /\
    axis_aligned vs /\
    head vs = Some (pin_x p1, pin_y p1) /\
    last vs = Some (pin_x p2, pin_y p2) /\
    getAttribute dot1 "cx" = Some [Dec (pin_x p1)] /\
    getAttribute dot1 "cy" = Some [Dec (pin_y p1)] /\
    getAttribute dot2 "cx" = Some [Dec (pin_x p2)] /\
    getAttribute dot2 "cy" = Some [Dec (pin_y p2)].
Proof.
  intros H1 H2 G1%Get_own G2%Get_own.
  rewrite (connect_truthy _ _ _ _ _ _ _ _ _ H1 H2 G1 G2).
  do 6 eexists. split; [reflexivity|]. split; [reflexivity|]. split; [reflexivity|].
  split; [apply route_vertices|].
  destruct (gt _ _); simpl; auto 20.
Qed.

(** X12: a later wire goes behind an earlier one: after two calls that
    both resolve, the second path is the first child of the layer, the
    first path the second, and the circles follow everything else in the
    order of the calls. *)
Theorem connect_twice (this : TechDrawEngine)
    (fromId fromPin toId toPin fromId' fromPin' toId' toPin' : string)
    (c1 c2 c1' c2' : ComponentInstance) (p1 p2 p1' p2' : Member) :
  components this !! fromId = Some c1 ->
  components this !! toId = Some c2 ->
  Get (inst_pins c1) fromPin = Some p1 ->
  Get (inst_pins c2) toPin = Some p2 ->
  components this !! fromId' = Some c1' ->
  components this !! toId' = Some c2' ->
  Get (inst_pins c1') fromPin' = Some p1' ->
  Get (inst_pins c2') toPin' = Some p2' ->
  exists this1 this2 path dot1 dot2 path' dot1' dot2',
    connect fromId fromPin toId toPin this = Normal this1 /\
    connect fromId' fromPin' toId' toPin' this1 = Normal this2 /\
    childNodes (activeLayer this1) = path :: childNodes (activeLayer this) ++ [dot1; dot2] /\
    childNodes (activeLayer this2)
    = path' :: path :: childNodes (activeLayer this) ++ [dot1; dot2; dot1'; dot2'] /\
    nodeName path = "path" /\ nodeName path' = "path" /\
    Forall (fun n => nodeName n = "circle") [dot1; dot2; dot1'; dot2'].
Proof.
  intros H1 H2 G1 G2 H1' H2' G1' G2'.
  pose proof (connect_truthy _ _ _ _ _ _ _ _ _ H1 H2 G1 G2) as E1.
  match type of E1 with _ = Normal ?s => set (this1 := s) in * end.
  pose proof (connect_truthy fromId' fromPin' toId' toPin' this1 c1' c2' p1' p2'
                H1' H2' G1' G2') as E2.
  exists this1. eexists. do 6 eexists.
  split; [exact E1|]. split; [exact E2|]. split; [reflexivity|].
  split; [simpl; by rewrite <- app_assoc|].
  split; [reflexivity|]. split; [reflexivity|]. by repeat constructor.
Qed.


Lemma connect_manhattan_witness :
  exists this' path dot1 dot2 d vs,
    connect "r1" "right" "r2" "left" two_resistors = Normal this' /\
    childNodes (activeLayer this')
    = path :: childNodes (activeLayer two_resistors) ++ [dot1; dot2] /\
    getAttribute path "d" = Some d /\
    Svg.vertices d = Some vs /\
    axis_aligned vs /\
    head vs = Some ((-70)%float, 0%float) /\
    last vs = Some (70%float, 0%float) /\
    getAttribute dot1 "cx" = Some [Dec (-70)] /\
    getAttribute dot1 "cy" = Some [Dec 0] /\
    getAttribute dot2 "cx" = Some [Dec 70] /\
    getAttribute dot2 "cy" = Some [Dec 0].
Proof.
  apply (connect_manhattan two_resistors "r1" "right" "r2" "left"
           (placed Host.Math_cos Host.Math_sin "resistor" "r1" (at_ (-100) 0))
           (placed Host.Math_cos Host.Math_sin "resistor" "r2" (at_ 100 0))
           {| pin_x := (-70)%float; pin_y := 0%float |}
           {| pin_x := 70%float; pin_y := 0%float |});
    vm_compute; reflexivity.
Defined.

Lemma connect_twice_witness :
  exists this1 this2 path dot1 dot2 path' dot1' dot2',
    connect "r1" "right" "r2" "left" two_resistors = Normal this1 /\
    connect "r2" "right" "r1" "left" this1 = Normal this2 /\
    childNodes (activeLayer this1)
    = path :: childNodes (activeLayer two_resistors) ++ [dot1; dot2] /\
    childNodes (activeLayer this2)
    = path' :: path :: childNodes (activeLayer two_resistors) ++ [dot1; dot2; dot1'; dot2'] /\
    nodeName path = "path" /\ nodeName path' = "path" /\
    Forall (fun n => nodeName n = "circle") [dot1; dot2; dot1'; dot2'].
Proof.
  apply (connect_twice two_resistors "r1" "right" "r2" "left" "r2" "right" "r1" "left"
           (placed Host.Math_cos Host.Math_sin "resistor" "r1" (at_ (-100) 0))
           (placed Host.Math_cos Host.Math_sin "resistor" "r2" (at_ 100 0))
           (placed Host.Math_cos Host.Math_sin "resistor" "r2" (at_ 100 0))
           (placed Host.Math_cos Host.Math_sin "resistor" "r1" (at_ (-100) 0))
           (Own {| pin_x := (-70)%float; pin_y := 0%float |})
           (Own {| pin_x := 70%float; pin_y := 0%float |})
           (Own {| pin_x := 130%float; pin_y := 0%float |})
           (Own {| pin_x := (-130)%float; pin_y := 0%float |}));
    vm_compute; reflexivity.
Defined.


(** ** Reset and what follows *)

(** X13: [reset] twice is [reset] once, and an engine that is empty (no
    child in its layer, no instance) is left exactly as it is. *)
Theorem reset_idempotent (this : TechDrawEngine) :
  exists this1,
    reset this = Normal this1 /\
    reset this1 = Normal this1 /\
    (childNodes (activeLayer this) = [] -> components this = ∅ -> this1 = this).
Proof.
  unfold reset. rewrite remove_children_spec. eexists. split; [reflexivity|].
  rewrite remove_children_spec. split; [reflexivity|].
  destruct this as [s [t a c] m l]. simpl. by intros -> ->.
Qed.

Section Forget.

Variables Math_cos Math_sin : float -> float.

Lemma call_same_drawing (c : Call) (a b a' b' : TechDrawEngine) :
  same_drawing a b ->
  call Math_cos Math_sin c a = Normal a' ->
  call Math_cos Math_sin c b = Normal b' ->
  same_drawing a' b'.
Proof.
  intros [Hl Hc]. destruct c as [type id config|fromId fromPin toId toPin|]; simpl.
  - rewrite !add_effect. intros [= <-] [= <-]. split; simpl; congruence.
  - intros Ha Hb.
    destruct (connect_cases fromId fromPin toId toPin a)
      as [(c1 & c2 & p1 & p2 & H1 & H2 & G1 & G2)|[[Hid Ea]|[(c1 & c2 & H1 & H2 & HG) Ea]]];
    destruct (connect_cases fromId fromPin toId toPin b)
      as [(d1 & d2 & q1 & q2 & K1 & K2 & L1 & L2)|[[Kid Eb]|[(d1 & d2 & K1 & K2 & KG) Eb]]];
    rewrite <- ?Hc in *;
    try (rewrite H1 in K1; rewrite H2 in K2; injection K1 as <-; injection K2 as <-);
    try (destruct Hid; congruence); try (destruct Kid; congruence);
    try (destruct HG; congruence); try (destruct KG; congruence).
    + rewrite G1 in L1. rewrite G2 in L2. injection L1 as <-. injection L2 as <-.
      rewrite (connect_truthy _ _ _ _ a _ _ _ _ H1 H2 G1 G2) in Ha.
      assert (H1b : components b !! fromId = Some c1) by congruence.
      assert (H2b : components b !! toId = Some c2) by congruence.
      rewrite (connect_truthy _ _ _ _ b _ _ _ _ H1b H2b G1 G2) in Hb.
      injection Ha as <-. injection Hb as <-. split; simpl; congruence.
    + rewrite Ea in Ha. rewrite Eb in Hb. injection Ha as <-. injection Hb as <-. by split.
    + rewrite Ea in Ha. rewrite Eb in Hb. injection Ha as <-. injection Hb as <-. by split.
  - unfold reset. rewrite !remove_children_spec. intros [= <-] [= <-]. by split.
Qed.

(** From engines with the same drawing, a sequence of calls runs to
    engines with the same drawing. *)
Lemma run_same_drawing (cs : list Call) (a b : TechDrawEngine) :
  same_drawing a b ->
  exists a' b',
    run Math_cos Math_sin cs a = Normal a' /\
    run Math_cos Math_sin cs b = Normal b' /\
    same_drawing a' b'.
Proof.
  revert a b. induction cs as [|c cs IH]; intros a b Hab; simpl.
  - by exists a, b.
  - destruct (call_effect Math_cos Math_sin c a) as (a1 & Ca & _).
    destruct (call_effect Math_cos Math_sin c b) as (b1 & Cb & _).
    rewrite Ca, Cb. simpl. apply IH. by eapply call_same_drawing.
Qed.

(** X14: after [reset], what a sequence of calls draws and registers does
    not depend on what the engine held before: two engines that run the
    same sequence after a [reset] end with the same children in the layer
    and the same registry. *)
Theorem reset_forgets (cs : list Call) (a b : TechDrawEngine) :
  exists a' b',
    run Math_cos Math_sin (CallReset :: cs) a = Normal a' /\
    run Math_cos Math_sin (CallReset :: cs) b = Normal b' /\
    same_drawing a' b'.
Proof.
  cbn [run call]. unfold reset. rewrite !remove_children_spec.
  unfold mbind, Completion_bind. apply run_same_drawing. by split.
Qed.

End Forget.

(** ** Placement without rotation *)

(** For the offsets of the symbols, multiplying by 1 and by 0 is exact. *)
Lemma pinOffsets_exact (type : string) :
  Forall (fun entry : string * (float * float) =>
            let '(px, py) := entry.2 in
            (px * 1 - py * 0 = px)%float /\ (px * 0 + py * 1 = py)%float)
         (pinOffsets type).
Proof.
  unfold pinOffsets, drawSymbol.
  repeat match goal with
         | |- context [String.eqb type ?s] =>
             destruct (String.eqb_spec type s) as [->|?]
         end;
    cbv beta zeta iota delta [snd]; repeat constructor.
Qed.

(** X15: on a host whose cosine and sine are exact at zero, a component
    placed without rotation (or with rotation 0) has every pin exactly
    at its offset from the centre: [(x + px, y + py)]. *)
Theorem add_unrotated (Math_cos Math_sin : float -> float)
    (type id : string) (config : ComponentConfig) (this : TechDrawEngine) :
  Math_cos 0%float = 1%float ->
  Math_sin 0%float = 0%float ->
  default 0%float (cfg_rotate config) = 0%float ->
  exists this' c,
    add Math_cos Math_sin type id config this = Normal this' /\
    components this' !! id = Some c /\
    inst_pins c
    = (fun o : float * float =>
         {| pin_x := (cfg_x config + o.1)%float; pin_y := (cfg_y config + o.2)%float |})
        <$> (list_to_map (pinOffsets type) : gmap string (float * float)).
Proof.
  intros Hcos Hsin Hrot. rewrite add_effect. do 2 eexists.
  split; [reflexivity|]. split; [apply lookup_insert_eq|].
  unfold placed, inst_pins. rewrite Hrot.
  apply map_fmap_ext. intros k [px py] Hk.
  apply elem_of_list_to_map_2 in Hk.
  pose proof (proj1 (Forall_forall _ _) (pinOffsets_exact type) _ Hk) as [Hx Hy].
  simpl in Hx, Hy. rewrite (unrotated_pin Math_cos Math_sin _ _ _ _ Hcos Hsin).
  simpl. by rewrite Hx, Hy.
Qed.


Lemma add_unrotated_witness :
  exists this' c,
    add Host.Math_cos Host.Math_sin "opamp" "u1" (at_ 40 (-20)) blank = Normal this' /\
    components this' !! "u1" = Some c /\
    inst_pins c
    = (fun o : float * float =>
         {| pin_x := (40 + o.1)%float; pin_y := (-20 + o.2)%float |})
        <$> (list_to_map (pinOffsets "opamp") : gmap string (float * float)).
Proof.
  apply (add_unrotated Host.Math_cos Host.Math_sin "opamp" "u1" (at_ 40 (-20)) blank
           Host_cos_0 Host_sin_0).
  reflexivity.
Defined.


(** ** Cleaning the generated code *)

Section Sanitize.
Import Gemini.

Lemma replace_g_cons (p : N) (pattern : list N) (c : N) (s : list N) :
  replace_g p pattern (c :: s)
  = if matches_at (p :: pattern) (c :: s)
    then replace_g p pattern (drop (length pattern) s)
    else c :: replace_g p pattern s.
Proof.
  simp replace_g. unfold replace_g_unfold_clause_2.
  destruct (inspect _) as [[] e]; simpl in *; by rewrite e.
Qed.

(** Induction on the length of the string. *)
Lemma length_ind (P : list N -> Prop) :
  (forall s, (forall t, length t < length s -> P t) -> P s) -> forall s, P s.
Proof.
  intros H s. remember (length s) as n eqn:Hn.
  revert s Hn. induction (lt_wf n) as [n _ IH]. intros s ->.
  apply H. intros t Hlt. by apply (IH (length t)).
Qed.

Lemma fence_ticks (s : list N) : matches_at fence s = true <-> 3 <= ticks s.
Proof.
  unfold fence.
  destruct s as [|a [|b [|c s]]]; cbn [matches_at ticks];
    repeat rewrite (N.eqb_sym 96);
    repeat match goal with
           | |- context [N.eqb ?x 96] => destruct (N.eqb x 96)
           end;
    cbn [andb]; split; intros; try discriminate; try lia; try reflexivity.
Qed.

Lemma ticks_drop_fence (s : list N) :
  matches_at fence s = true -> ticks (drop 3 s) = ticks s - 3.
Proof.
  unfold fence.
  destruct s as [|a [|b [|c s]]]; cbn [matches_at ticks drop];
    repeat rewrite (N.eqb_sym 96);
    repeat match goal with
           | |- context [N.eqb ?x 96] => destruct (N.eqb x 96)
           end;
    cbn [andb]; intros; try discriminate; rewrite ?drop_0; lia.
Qed.
(** Removing the fences leaves, in front, the backticks that do not make
    up a fence. *)
Lemma ticks_replace_g (s : list N) :
  ticks (replace_g 96 [96; 96]%N s) = ticks s mod 3.
Proof.
  induction s as [s IH] using length_ind.
  destruct s as [|c s]; [reflexivity|].
  rewrite replace_g_cons.
  change (matches_at (96%N :: [96%N; 96%N]) (c :: s)) with (matches_at fence (c :: s)).
  destruct (matches_at fence (c :: s)) eqn:Hm.
  - change (drop (length [96%N; 96%N]) s) with (drop 3 (c :: s)).
    rewrite IH by (rewrite length_drop; simpl; lia).
    rewrite (ticks_drop_fence _ Hm). apply fence_ticks in Hm.
    replace (ticks (c :: s)) with (ticks (c :: s) - 3 + 1 * 3) at 2 by lia.
    by rewrite Nat.Div0.mod_add.
  - assert (Hlt : ticks (c :: s) < 3).
    { destruct (le_lt_dec 3 (ticks (c :: s))) as [Hge|]; [|done].
      apply fence_ticks in Hge. congruence. }
    rewrite (Nat.mod_small _ _ Hlt). cbn [ticks] in *.
    destruct (N.eqb c 96); [|done].
    rewrite IH by (simpl; lia). rewrite Nat.mod_small by lia. done.
Qed.

Lemma replace_g_no_fence (s : list N) :
  occurs fence (replace_g 96 [96; 96]%N s) = false.
Proof.
  induction s as [s IH] using length_ind.
  destruct s as [|c s]; [reflexivity|].
  rewrite replace_g_cons.
  change (matches_at (96%N :: [96%N; 96%N]) (c :: s)) with (matches_at fence (c :: s)).
  destruct (matches_at fence (c :: s)) eqn:Hm.
  - apply IH. rewrite length_drop. simpl. lia.
  - change (occurs fence (c :: replace_g 96 [96; 96]%N s))
      with (matches_at fence (c :: replace_g 96 [96; 96]%N s)
            || occurs fence (replace_g 96 [96; 96]%N s)).
    rewrite IH by (simpl; lia). rewrite orb_false_r.
    destruct (matches_at fence (c :: replace_g 96 [96; 96]%N s)) eqn:Hr; [|done].
    apply fence_ticks in Hr.
    assert (Hlt : ticks (c :: s) < 3).
    { destruct (le_lt_dec 3 (ticks (c :: s))) as [Hge|]; [|done].
      apply fence_ticks in Hge. congruence. }
    simpl in Hr, Hlt. destruct (N.eqb c 96); [|lia].
    rewrite ticks_replace_g in Hr. rewrite Nat.mod_small in Hr by lia. lia.
Qed.

Lemma matches_at_nil (pattern s : list N) :
  matches_at pattern [] = true -> matches_at pattern s = true.
Proof. destruct pattern; [by destruct s | done]. Qed.

Lemma trimEnd_cons (c : N) (s : list N) :
  trimEnd (c :: s)
  = if bool_decide (trimEnd s = []) then (if is_space c then [] else [c])
    else c :: trimEnd s.
Proof. simpl. by destruct (trimEnd s). Qed.

Lemma matches_at_trimEnd (pattern s : list N) :
  matches_at pattern (trimEnd s) = true -> matches_at pattern s = true.
Proof.
  revert pattern. induction s as [|c s IH]; intros pattern; [done|].
  rewrite trimEnd_cons. destruct pattern as [|p pattern]; [done|].
  case_bool_decide as Hr.
  - destruct (is_space c); [done|]. cbn [matches_at].
    intros [-> Hm]%andb_true_iff. by rewrite (matches_at_nil _ s Hm).
  - cbn [matches_at]. intros [-> Hm]%andb_true_iff. by rewrite (IH _ Hm).
Qed.

Lemma occurs_nil (pattern s : list N) :
  occurs pattern s = false -> matches_at pattern [] = false.
Proof.
  induction s as [|c s IH]; [done|]. cbn [occurs].
  intros [_ Ho]%orb_false_iff. by apply IH.
Qed.

Lemma occurs_trimEnd (pattern s : list N) :
  occurs pattern s = false -> occurs pattern (trimEnd s) = false.
Proof.
  induction s as [|c s IH]; [done|].
  intros Ho. pose proof (occurs_nil _ _ Ho) as Hnil.
  assert (Hm : matches_at pattern (trimEnd (c :: s)) = false).
  { destruct (matches_at pattern (trimEnd (c :: s))) eqn:Hm; [|done].
    apply matches_at_trimEnd in Hm. cbn [occurs] in Ho.
    by rewrite Hm in Ho. }
  cbn [occurs] in Ho. apply orb_false_iff in Ho as [_ Ho]. specialize (IH Ho).
  rewrite trimEnd_cons in *. case_bool_decide as Hr.
  - destruct (is_space c); [done|]. cbn [occurs]. by rewrite Hm, Hnil.
  - cbn [occurs]. by rewrite Hm, IH.
Qed.

Lemma occurs_trimStart (pattern s : list N) :
  occurs pattern s = false -> occurs pattern (trimStart s) = false.
Proof.
  induction s as [|c s IH]; [done|].
  intros Ho. simpl. destruct (is_space c); [|done].
  simpl in Ho. apply orb_false_iff in Ho as [_ Ho]. by apply IH.
Qed.

(** X16: the code that is returned holds no Markdown fence: three
    backticks in a row occur nowhere in it, whatever the response was. *)
Theorem sanitize_no_fence (text : option (list N)) :
  occurs fence (sanitize text) = false.
Proof.
  unfold sanitize, trim.
  apply occurs_trimEnd, occurs_trimStart, replace_g_no_fence.
Qed.

Lemma trimStart_head (s : list N) (c : N) :
  head (trimStart s) = Some c -> is_space c = false.
Proof.
  induction s as [|a s IH]; [done|]. simpl.
  destruct (is_space a) eqn:Ha; [done|]. simpl. by intros [= <-].
Qed.

Lemma trimEnd_head (s : list N) :
  trimEnd s <> [] -> head (trimEnd s) = head s.
Proof.
  destruct s as [|c s]; [done|]. simpl.
  destruct (trimEnd s); [|done]. by destruct (is_space c).
Qed.

Lemma trimEnd_last (s : list N) (c : N) :
  last (trimEnd s) = Some c -> is_space c = false.
Proof.
  induction s as [|a s IH]; [done|]. simpl.
  destruct (trimEnd s) as [|r rs] eqn:Hr.
  - destruct (is_space a) eqn:Ha; [done|]. simpl. by intros [= <-].
  - change (last (a :: r :: rs)) with (last (r :: rs)). exact IH.
Qed.

(** X17: the code that is returned neither starts nor ends with white
    space or a line terminator. *)
Theorem sanitize_trimmed (text : option (list N)) :
  from_option is_space false (head (sanitize text)) = false
  /\ from_option is_space false (last (sanitize text)) = false.
Proof.
  unfold sanitize, trim. split.
  - destruct (head (trimEnd _)) as [c|] eqn:Hh; [|done].
    rewrite trimEnd_head in Hh by (intros Hnil; by rewrite Hnil in Hh).
    exact (trimStart_head _ _ Hh).
  - destruct (last (trimEnd _)) as [c|] eqn:Hl; [|done].
    exact (trimEnd_last _ _ Hl).
Qed.

Lemma matches_at_app (p q s : list N) :
  matches_at (p ++ q) s = true -> matches_at p s = true.
Proof.
  revert s. induction p as [|a p IH]; intros s; [done|].
  destruct s as [|c s]; [done|]. cbn [matches_at app].
  intros [-> Hm]%andb_true_iff. by rewrite (IH _ Hm).
Qed.

Lemma occurs_app (p q s : list N) :
  occurs p s = false -> occurs (p ++ q) s = false.
Proof.
  induction s as [|c s IH]; cbn [occurs].
  - intros Hm. destruct (matches_at (p ++ q) []) eqn:E; [|done].
    apply matches_at_app in E. congruence.
  - intros [Hm Ho]%orb_false_iff. rewrite (IH Ho), orb_false_r.
    destruct (matches_at (p ++ q) (c :: s)) eqn:E; [|done].
    apply matches_at_app in E. congruence.
Qed.

(** Where the pattern does not occur, nothing is replaced. *)
Lemma replace_g_clean (p : N) (pattern s : list N) :
  occurs (p :: pattern) s = false -> replace_g p pattern s = s.
Proof.
  induction s as [|c s IH]; [done|]. cbn [occurs].
  intros [Hm Ho]%orb_false_iff. rewrite replace_g_cons, Hm. by rewrite (IH Ho).
Qed.

Lemma trimStart_clean (s : list N) :
  from_option is_space false (head s) = false -> trimStart s = s.
Proof. destruct s as [|c s]; [done|]. simpl. by intros ->. Qed.

Lemma trimEnd_clean (s : list N) :
  from_option is_space false (last s) = false -> trimEnd s = s.
Proof.
  induction s as [|c s IH]; [done|]. rewrite trimEnd_cons.
  destruct s as [|d s].
  - simpl. by intros ->.
  - change (last (c :: d :: s)) with (last (d :: s)). intros H.
    rewrite (IH H). by rewrite bool_decide_false.
Qed.

Lemma clean_fixed (code : list N) :
  occurs fence code = false ->
  from_option is_space false (head code) = false ->
  from_option is_space false (last code) = false ->
  trim (replace_g 96 [96; 96]%N
          (replace_g 96 [96; 96; 106; 97; 118; 97; 115; 99; 114; 105; 112; 116]%N code))
  = code.
Proof.
  intros Hf Hh Hl.
  rewrite (replace_g_clean 96 [96; 96; 106; 97; 118; 97; 115; 99; 114; 105; 112; 116]%N)
    by exact (occurs_app fence [106; 97; 118; 97; 115; 99; 114; 105; 112; 116]%N _ Hf).
  rewrite (replace_g_clean 96 [96; 96]%N) by exact Hf.
  unfold trim. rewrite (trimStart_clean _ Hh). exact (trimEnd_clean _ Hl).
Qed.

(** X18: a response that holds no fence and has no white space at either
    end is returned as it is. *)
Theorem sanitize_clean (code : list N) :
  occurs fence code = false ->
  from_option is_space false (head code) = false ->
  from_option is_space false (last code) = false ->
  sanitize (Some code) = code.
Proof.
  intros Hf Hh Hl. unfold sanitize.
  replace (match code with [] => [] | c :: s => c :: s end) with code
    by (by destruct code).
  by apply clean_fixed.
Qed.

Lemma sanitize_clean_witness :
  sanitize (Some [84; 101; 99; 104; 68; 114; 97; 119; 46; 97; 100; 100; 40; 41; 59]%N)
  = [84; 101; 99; 104; 68; 114; 97; 119; 46; 97; 100; 100; 40; 41; 59]%N.
Proof. apply sanitize_clean; vm_compute; reflexivity. Defined.

(** X19: cleaning is idempotent: cleaning code that was already cleaned
    changes nothing. *)
Theorem sanitize_idempotent (text : option (list N)) :
  sanitize (Some (sanitize text)) = sanitize text.
Proof.
  unfold sanitize at 1.
  replace (match sanitize text with [] => [] | c :: s => c :: s end)
    with (sanitize text) by (by destruct (sanitize text)).
  apply clean_fixed.
  - unfold sanitize, trim.
    apply occurs_trimEnd, occurs_trimStart, replace_g_no_fence.
  - unfold sanitize, trim.
    destruct (head (trimEnd _)) as [c|] eqn:Hh; [|done].
    rewrite trimEnd_head in Hh by (intros Hnil; by rewrite Hnil in Hh).
    exact (trimStart_head _ _ Hh).
  - unfold sanitize, trim.
    destruct (last (trimEnd _)) as [c|] eqn:Hl; [|done].
    exact (trimEnd_last _ _ Hl).
Qed.

Lemma replace_g_sublist (p : N) (pattern s : list N) :
  sublist (replace_g p pattern s) s.
Proof.
  induction s as [s IH] using length_ind.
  destruct s as [|c s]; [constructor|].
  rewrite replace_g_cons. destruct (matches_at _ _).
  - apply sublist_cons.
    etrans; [apply IH; rewrite length_drop; simpl; lia|].
    apply sublist_drop.
  - apply sublist_skip, IH. simpl. lia.
Qed.

Lemma trimStart_sublist (s : list N) : sublist (trimStart s) s.
Proof.
  induction s as [|c s IH]; [constructor|]. simpl.
  destruct (is_space c); [by apply sublist_cons | done].
Qed.

Lemma trimEnd_sublist (s : list N) : sublist (trimEnd s) s.
Proof.
  induction s as [|c s IH]; [constructor|]. rewrite trimEnd_cons.
  case_bool_decide as Hr.
  - destruct (is_space c).
    + apply sublist_nil_l.
    + apply sublist_skip, sublist_nil_l.
  - by apply sublist_skip.
Qed.

(** X20: cleaning only deletes: the code that is returned is made of
    characters of the response, in their order; nothing is added or
    changed. *)
Theorem sanitize_sublist (text : list N) :
  sublist (sanitize (Some text)) text.
Proof.
  unfold sanitize, trim.
  replace (match text with [] => [] | c :: s => c :: s end) with text
    by (by destruct text).
  etrans; [apply trimEnd_sublist|]. etrans; [apply trimStart_sublist|].
  etrans; apply replace_g_sublist.
Qed.

End Sanitize.


(** ** Zooming *)

Lemma SFcompare_antisym (a b : spec_float) :
  SFcompare b a = option_map CompOpp (SFcompare a b).
Proof.
  destruct a as [[]|[]| |[] m1 e1], b as [[]|[]| |[] m2 e2]; try reflexivity;
    simpl; rewrite (Z.compare_antisym e1 e2); destruct (e1 ?= e2)%Z; simpl;
    try reflexivity; f_equal;
    change PosDef.Pos.compare_cont with Pos.compare_cont;
    pose proof (Pos.compare_cont_antisym m1 m2 Eq) as H; simpl in H; rewrite <- H;
    by destruct (Pos.compare_cont Eq m1 m2).
Qed.

Lemma is_nan_compare (a b : float) :
  is_nan a = false -> is_nan b = false ->
  exists c, SFcompare (Prim2SF a) (Prim2SF b) = Some c.
Proof.
  unfold is_nan. rewrite !FloatAxioms.eqb_spec. unfold SFeqb.
  destruct (Prim2SF a) as [[]|[]| |[] m1 e1], (Prim2SF b) as [[]|[]| |[] m2 e2];
    simpl; try discriminate; eauto.
Qed.

(** On numbers, [<=] is total and [<] implies [<=]. *)
Lemma float_ltb_false_leb (a b : float) :
  is_nan a = false -> is_nan b = false ->
  (a <? b)%float = false -> (b <=? a)%float = true.
Proof.
  intros Ha Hb. destruct (is_nan_compare a b Ha Hb) as [c Hc].
  rewrite FloatAxioms.ltb_spec, FloatAxioms.leb_spec. unfold SFltb, SFleb.
  rewrite (SFcompare_antisym (Prim2SF a) (Prim2SF b)), Hc.
  by destruct c.
Qed.

Lemma float_ltb_leb (a b : float) : (a <? b)%float = true -> (a <=? b)%float = true.
Proof.
  rewrite FloatAxioms.ltb_spec, FloatAxioms.leb_spec. unfold SFltb, SFleb.
  by destruct (SFcompare _ _) as [[]|].
Qed.

Lemma float_leb_refl (a : float) : is_nan a = false -> (a <=? a)%float = true.
Proof.
  intros Ha. apply float_ltb_false_leb; [done..|].
  rewrite FloatAxioms.ltb_spec. unfold SFltb.
  pose proof (SFcompare_antisym (Prim2SF a) (Prim2SF a)) as H.
  destruct (SFcompare _ _) as [[]|]; try done.
Qed.

Lemma Math_min_cases (a b : float) :
  is_nan a = false -> is_nan b = false ->
  (Canvas.Math_min a b = a \/ Canvas.Math_min a b = b) /\
  (Canvas.Math_min a b <=? a)%float = true /\
  (Canvas.Math_min a b <=? b)%float = true.
Proof.
  intros Ha Hb. unfold Canvas.Math_min. rewrite Ha, Hb. cbn [orb].
  destruct (a <? b)%float eqn:Hab.
  { split; [by left|]. split; [by apply float_leb_refl | by apply float_ltb_leb]. }
  destruct (b <? a)%float eqn:Hba.
  { split; [by right|]. split; [by apply float_ltb_leb | by apply float_leb_refl]. }
  destruct (is_zero a && get_sign a).
  - split; [by left|]. split; [by apply float_leb_refl | by apply float_ltb_false_leb].
  - split; [by right|]. split; [by apply float_ltb_false_leb | by apply float_leb_refl].
Qed.

Lemma Math_max_cases (a b : float) :
  is_nan a = false -> is_nan b = false ->
  (Canvas.Math_max a b = a \/ Canvas.Math_max a b = b) /\
  (a <=? Canvas.Math_max a b)%float = true /\
  (b <=? Canvas.Math_max a b)%float = true.
Proof.
  intros Ha Hb. unfold Canvas.Math_max. rewrite Ha, Hb. cbn [orb].
  destruct (b <? a)%float eqn:Hba.
  { split; [by left|]. split; [by apply float_leb_refl | by apply float_ltb_leb]. }
  destruct (a <? b)%float eqn:Hab.
  { split; [by right|]. split; [by apply float_ltb_leb | by apply float_leb_refl]. }
  destruct (is_zero a && negb (get_sign a)).
  - split; [by left|]. split; [by apply float_leb_refl | by apply float_ltb_false_leb].
  - split; [by right|]. split; [by apply float_ltb_false_leb | by apply float_leb_refl].
Qed.

Lemma Math_min_nan (a b : float) :
  is_nan (Canvas.Math_min a b) = is_nan a || is_nan b.
Proof.
  destruct (is_nan a) eqn:Ha.
  { unfold Canvas.Math_min. by rewrite Ha. }
  destruct (is_nan b) eqn:Hb.
  { unfold Canvas.Math_min. by rewrite Ha, Hb. }
  destruct (Math_min_cases a b Ha Hb) as [[-> | ->] _]; by rewrite ?Ha, ?Hb.
Qed.

Lemma Math_max_nan (a b : float) :
  is_nan (Canvas.Math_max a b) = is_nan a || is_nan b.
Proof.
  destruct (is_nan a) eqn:Ha.
  { unfold Canvas.Math_max. by rewrite Ha. }
  destruct (is_nan b) eqn:Hb.
  { unfold Canvas.Math_max. by rewrite Ha, Hb. }
  destruct (Math_max_cases a b Ha Hb) as [[-> | ->] _]; by rewrite ?Ha, ?Hb.
Qed.

(** X21: a wheel event leaves the scale between 0.1 and 5, whatever the
    scale was and however far the wheel turned, unless the sum
    [scale + delta] is NaN: then the scale is NaN.  The position is kept. *)
Theorem handleWheel_clamps (deltaY : float) (transform prev : Canvas.Transform) :
  let next := Canvas.handleWheel deltaY transform prev in
  let delta := if gt deltaY 0 then (-0x1.999999999999ap-5)%float
               else 0x1.999999999999ap-5%float in
  Canvas.x next = Canvas.x prev /\ Canvas.y next = Canvas.y prev /\
  if is_nan (Canvas.scale transform + delta)
  then is_nan (Canvas.scale next) = true
  else Canvas.between 0x1.999999999999ap-4 5 (Canvas.scale next) = true.
Proof.
  intros next delta. split; [done|]. split; [done|].
  set (v := (Canvas.scale transform + delta)%float).
  change (Canvas.scale next)
    with (Canvas.Math_max 0x1.999999999999ap-4 (Canvas.Math_min 5 v)).
  destruct (is_nan v) eqn:Hv.
  - by rewrite Math_max_nan, Math_min_nan, Hv.
  - assert (Hm : is_nan (Canvas.Math_min 5 v) = false) by (by rewrite Math_min_nan, Hv).
    destruct (Math_min_cases 5 v eq_refl Hv) as (_ & Hm5 & _).
    destruct (Math_max_cases 0x1.999999999999ap-4 (Canvas.Math_min 5 v) eq_refl Hm)
      as (Hc & Hlo & _).
    unfold Canvas.between. rewrite Hlo. cbn [andb].
    destruct Hc as [-> | ->]; [reflexivity | exact Hm5].
Qed.

(** X22: the zoom buttons: zooming in never takes the scale above 5 and
    zooming out never takes it below 0.1 (the scale is NaN exactly when
    the product, or the quotient, is); each keeps the position; and the
    reset button sets the scale to 1. *)
Theorem zoom_buttons (transform : Canvas.Transform) :
  (if is_nan (Canvas.scale transform * 0x1.3333333333333p+0)
   then is_nan (Canvas.scale (Canvas.zoomIn transform)) = true
   else (Canvas.scale (Canvas.zoomIn transform) <=? 5)%float = true) /\
  (if is_nan (Canvas.scale transform / 0x1.3333333333333p+0)
   then is_nan (Canvas.scale (Canvas.zoomOut transform)) = true
   else (0x1.999999999999ap-4 <=? Canvas.scale (Canvas.zoomOut transform))%float = true) /\
  Canvas.scale (Canvas.resetZoom transform) = 1%float.
Proof.
  split; [|split; [|reflexivity]]; cbn [Canvas.zoomIn Canvas.zoomOut Canvas.scale].
  - destruct (is_nan (_ * _)) eqn:Hv.
    + by rewrite Math_min_nan, Hv.
    + by destruct (Math_min_cases 5 _ eq_refl Hv) as (_ & H & _).
  - destruct (is_nan (_ / _)) eqn:Hv.
    + by rewrite Math_max_nan, Hv.
    + by destruct (Math_max_cases 0x1.999999999999ap-4 _ eq_refl Hv) as (_ & H & _).
Qed.
